(** * Client service-ticket cache: a shallow embedding of [client/cache.go]

    The development follows the Go source function by function:
    - [base64]: the standard-alphabet encoder that [key] relies on,
      written with the shifts and masks of the library routine;
    - [key], [Cache], [getEntry], [addEntry], [clear], [RemoveEntry];
    - [JSON]: key collection in map-iteration order, [sort_Strings], and
      the indented marshalling of the exported fields;
    - [GetCachedTicket] and [renewTicket], in a state monad that also
      records every call made to the ticket-granting exchange.

    Go strings are byte sequences, modelled by [string] (a list of
    [ascii] bytes); [time.Time] instants are integers. *)

From stdpp Require Import gmap strings list sorting pretty.
From Stdlib Require Import NArith ZArith Lia Ascii String.

Local Open Scope string_scope.

(** ** Base64, standard encoding with padding *)

Module base64.

Local Open Scope N_scope.

(** The 64-character alphabet of [base64.StdEncoding]. *)
Definition encodeStd : string :=
  "ABCDEFGHIJKLMNOPQRSTUVWXYZabcdefghijklmnopqrstuvwxyz0123456789+/".

Definition StdPadding : ascii := "="%char.

(** [enc.encode[i]]: the alphabet indexed as an array. *)
Definition encode (i : N) : ascii :=
  nth (N.to_nat i) (list_ascii_of_string encodeStd) Ascii.zero.

(** [uint(src[i])]. *)
Definition uint (b : ascii) : N := N_of_ascii b.

(** [enc.encode[val>>shift&0x3F]]. *)
Definition sextet (val shift : N) : ascii :=
  encode (N.land (N.shiftr val shift) 63).

(** [EncodeToString]: whole 3-byte groups give four characters; a
    remainder of one or two bytes gives two or three characters and
    padding. *)
Fixpoint EncodeToString (src : string) : string :=
  match src with
  | EmptyString => EmptyString
  | String b0 EmptyString =>
      let val := N.shiftl (uint b0) 16 in
      String (sextet val 18) (String (sextet val 12)
        (String StdPadding (String StdPadding EmptyString)))
  | String b0 (String b1 EmptyString) =>
      let val := N.lor (N.shiftl (uint b0) 16) (N.shiftl (uint b1) 8) in
      String (sextet val 18) (String (sextet val 12)
        (String (sextet val 6) (String StdPadding EmptyString)))
  | String b0 (String b1 (String b2 rest)) =>
      let val := N.lor (N.lor (N.shiftl (uint b0) 16) (N.shiftl (uint b1) 8))
                       (uint b2) in
      String (sextet val 18) (String (sextet val 12)
        (String (sextet val 6) (String (sextet val 0) (EncodeToString rest))))
  end.

(** *** The inverse, used to establish that the encoding is reversible *)

Fixpoint index_from (c : ascii) (l : list ascii) (i : N) : option N :=
  match l with
  | [] => None
  | x :: l' => if Ascii.eqb c x then Some i else index_from c l' (N.succ i)
  end.

(** Position of a character in the alphabet, if any. *)
Definition decodeMap (c : ascii) : option N :=
  index_from c (list_ascii_of_string encodeStd) 0.

Definition quantum (i0 i1 i2 i3 : N) : N :=
  N.lor (N.lor (N.lor (N.shiftl i0 18) (N.shiftl i1 12)) (N.shiftl i2 6)) i3.

Definition octet (val shift : N) : ascii :=
  ascii_of_N (N.land (N.shiftr val shift) 255).

Definition is_pad (c : ascii) : bool := Ascii.eqb c StdPadding.

Definition is_empty (s : string) : bool :=
  match s with EmptyString => true | _ => false end.

Fixpoint DecodeString (s : string) : option string :=
  match s with
  | EmptyString => Some EmptyString
  | String c0 (String c1 (String c2 (String c3 rest))) =>
      match decodeMap c0, decodeMap c1 with
      | Some i0, Some i1 =>
          if is_pad c2 then
            if is_pad c3 && is_empty rest
            then Some (String (octet (quantum i0 i1 0 0) 16) EmptyString)
            else None
          else
            match decodeMap c2 with
            | Some i2 =>
                if is_pad c3 then
                  if is_empty rest
                  then let val := quantum i0 i1 i2 0 in
                       Some (String (octet val 16)
                              (String (octet val 8) EmptyString))
                  else None
                else
                  match decodeMap c3, DecodeString rest with
                  | Some i3, Some r =>
                      let val := quantum i0 i1 i2 i3 in
                      Some (String (octet val 16) (String (octet val 8)
                             (String (octet val 0) r)))
                  | _, _ => None
                  end
            | None => None
            end
      | _, _ => None
      end
  | _ => None
  end.

End base64.

(** ** The composite cache key *)

(** [key(cname, spn)]: both names in base64, joined by a colon. *)
Definition key (cname spn : string) : string :=
  base64.EncodeToString cname ++ ":" ++ base64.EncodeToString spn.

(** [c] is one of the bytes of [s]. *)
Fixpoint occurs (c : ascii) (s : string) : Prop :=
  match s with
  | EmptyString => False
  | String x s' => x = c ∨ occurs c s'
  end.

(** ** Types of the neighbouring packages

    [types.PrincipalName], [messages.Ticket] and [types.EncryptionKey]
    are declared in other packages.  The cache only stores their values,
    reads a ticket's [SName] and [Realm], prints principal names with
    [PrincipalNameString], and uses their zero values; they are kept
    abstract behind this interface. *)
Class Krb5Types := {
  types_PrincipalName : Type;
  PrincipalNameString : types_PrincipalName → string;
  messages_Ticket : Type;
  SName : messages_Ticket → types_PrincipalName;
  Realm : messages_Ticket → string;
  types_EncryptionKey : Type;
  zero_PrincipalName : types_PrincipalName;
  zero_Ticket : messages_Ticket;
  zero_EncryptionKey : types_EncryptionKey
}.

(** [time.Time]: an instant, in nanoseconds after the zero time. *)
Definition Time : Type := Z.

Bind Scope Z_scope with Time.

Definition zero_Time : Time := 0%Z.

(** [t.After(u)] and [t.Before(u)] are both strict. *)
Definition After (t u : Time) : bool := (u <? t)%Z.
Definition Before (t u : Time) : bool := (t <? u)%Z.

(** Go [error] values.  [errors.New] returns a pointer to a newly
    allocated [errorString]; two such pointers are [==] only when they are
    the same allocation, whatever their text.  Errors of any other dynamic
    type are compared by type and value. *)
Inductive error : Type :=
| errorString (addr : nat) (s : string)
| otherError (dynamic_type : string) (value : string).

(** [err.Error()]. *)
Definition Error (err : error) : string :=
  match err with
  | errorString _ s => s
  | otherError _ v => v
  end.

Section Cache.

Context `{Krb5Types}.

(** [CacheEntry] holds details for a cache entry. *)
Record CacheEntry : Type := {
  CName : types_PrincipalName;
  SPN : string;
  Ticket : messages_Ticket;
  AuthTime : Time;
  StartTime : Time;
  EndTime : Time;
  RenewTill : Time;
  SessionKey : types_EncryptionKey
}.

(** The zero value of [CacheEntry], which a failed map lookup yields. *)
Definition zero_CacheEntry : CacheEntry :=
  {| CName := zero_PrincipalName; SPN := EmptyString; Ticket := zero_Ticket;
     AuthTime := zero_Time; StartTime := zero_Time; EndTime := zero_Time;
     RenewTill := zero_Time; SessionKey := zero_EncryptionKey |}.

(** [Cache] for service tickets held by the client.  The mutex guards the
    map against concurrent access and has no sequential behaviour. *)
Record Cache : Type := { Entries : gmap string CacheEntry }.

(** [NewCache] creates a new client ticket cache instance. *)
Definition NewCache : Cache := {| Entries := ∅ |}.

(** [e, ok := c.Entries[k]]. *)
Definition index_Entries (c : Cache) (k : string) : CacheEntry * bool :=
  match Entries c !! k with
  | Some e => (e, true)
  | None => (zero_CacheEntry, false)
  end.

(** [getEntry] returns a cache entry that matches the SPN. *)
Definition getEntry (c : Cache) (cname spn : string) : CacheEntry * bool :=
  index_Entries c (key cname spn).

(** [addEntry] adds a ticket to the cache and returns the stored entry. *)
Definition addEntry (c : Cache) (cname : types_PrincipalName)
    (tkt : messages_Ticket) (authTime startTime endTime renewTill : Time)
    (sessionKey : types_EncryptionKey) : Cache * CacheEntry :=
  let spn := PrincipalNameString (SName tkt) in
  let k := key (PrincipalNameString cname) spn in
  let c' := {| Entries :=
                 <[k := {| CName := cname; SPN := spn; Ticket := tkt;
                           AuthTime := authTime; StartTime := startTime;
                           EndTime := endTime; RenewTill := renewTill;
                           SessionKey := sessionKey |}]> (Entries c) |} in
  (c', fst (index_Entries c' k)).

(** [for k := range c.Entries] visits every key once, in an order the
    language leaves unspecified: [iter] is one such order. *)
Definition range_order (c : Cache) (iter : list string) : Prop :=
  iter ≡ₚ (map_to_list (Entries c)).*1.

(** [clear] deletes all the cache entries, one key at a time. *)
Definition clear (c : Cache) (iter : list string) : Cache :=
  {| Entries := foldl (λ m k, delete k m) (Entries c) iter |}.

(** [RemoveEntry] removes the cache entry for the defined SPN. *)
Definition RemoveEntry (c : Cache) (cname spn : string) : Cache :=
  {| Entries := delete (key cname spn) (Entries c) |}.

End Cache.

(** ** JSON export *)

(** Byte-wise lexicographic order on strings, the order of Go's [<=]. *)
Definition string_le (s1 s2 : string) : Prop := String.leb s1 s2 = true.

Global Instance string_le_dec : RelDecision string_le :=
  λ s1 s2, decide (String.leb s1 s2 = true).

(** [sort.Strings] sorts a slice of strings in increasing order. *)
Definition sort_Strings (keys : list string) : list string :=
  merge_sort string_le keys.

#[local] Set Warnings "-register-all".

(** A JSON document, as [encoding/json] builds it before indentation. *)
Inductive json : Type :=
| json_null
| json_literal (text : string)
| json_array (elems : list json)
| json_object (fields : list (string * json)).

Definition dquote : string := String "034"%char EmptyString.

(** A line break followed by [d] levels of the two-space indent. *)
Definition newline (d : nat) : string :=
  String "010"%char (String.concat "" (replicate d "  ")).

(** The layout of [json.MarshalIndent(v, "", "  ")]. *)
Fixpoint render (d : nat) (v : json) : string :=
  match v with
  | json_null => "null"
  | json_literal text => text
  | json_array [] => "[]"
  | json_array elems =>
      "[" ++ newline (S d)
          ++ String.concat ("," ++ newline (S d)) (map (render (S d)) elems)
          ++ newline d ++ "]"
  | json_object [] => "{}"
  | json_object fields =>
      "{" ++ newline (S d)
          ++ String.concat ("," ++ newline (S d))
               (map (λ kv, dquote ++ fst kv ++ dquote ++ ": "
                             ++ render (S d) (snd kv)) fields)
          ++ newline d ++ "}"
  end.

(** Marshal every element, stopping at the first error. *)
Fixpoint marshal_all {A : Type} (f : A → json + error) (l : list A)
    : list json + error :=
  match l with
  | [] => inl []
  | x :: l' =>
      match f x with
      | inr err => inr err
      | inl v =>
          match marshal_all f l' with
          | inr err => inr err
          | inl vs => inl (v :: vs)
          end
      end
  end.

Section JSON.

Context `{Krb5Types}.

(** The encoders of [encoding/json] for the field types: the quoted and
    escaped form of a string, the object of a principal name, and
    [Time.MarshalJSON], which fails on a year outside its range. *)
Variable quote : string → string.
Variable marshal_PrincipalName : types_PrincipalName → json.
Variable Time_MarshalJSON : Time → string + error.

Definition marshal_Time (t : Time) : json + error :=
  match Time_MarshalJSON t with
  | inl text => inl (json_literal text)
  | inr err => inr err
  end.

(** The struct encoder visits the fields in declaration order and skips
    [Ticket] and [SessionKey], which are tagged [json:"-"]. *)
Definition marshal_CacheEntry (e : CacheEntry) : json + error :=
  match marshal_Time (AuthTime e) with
  | inr err => inr err
  | inl auth =>
  match marshal_Time (StartTime e) with
  | inr err => inr err
  | inl start =>
  match marshal_Time (EndTime e) with
  | inr err => inr err
  | inl end_ =>
  match marshal_Time (RenewTill e) with
  | inr err => inr err
  | inl renew =>
      inl (json_object
             [("CName", marshal_PrincipalName (CName e));
              ("SPN", json_literal (quote (SPN e)));
              ("AuthTime", auth);
              ("StartTime", start);
              ("EndTime", end_);
              ("RenewTill", renew)])
  end end end end.

(** [json.MarshalIndent(&es, "", "  ")].  [es] is declared without a
    value, so it is still the nil slice when the cache is empty, and a
    nil slice is marshalled as [null]. *)
Definition MarshalIndent (es : list CacheEntry) : string + error :=
  match es with
  | [] => inl "null"
  | _ :: _ =>
      match marshal_all marshal_CacheEntry es with
      | inl vs => inl (render 0 (json_array vs))
      | inr err => inr err
      end
  end.

(** The entries in the order of the sorted keys: the slice [es]. *)
Definition snapshot (c : Cache) (iter : list string) : list CacheEntry :=
  let keys := sort_Strings iter in
  map (λ k, fst (index_Entries c k)) keys.

(** [JSON] returns information about the cached service tickets in a
    JSON format.  [iter] is the order in which the map is ranged over. *)
Definition JSON (c : Cache) (iter : list string) : string * option error :=
  match MarshalIndent (snapshot c iter) with
  | inl b => (b, None)
  | inr err => (EmptyString, Some err)
  end.

End JSON.

(** ** The client: cache lookup with renewal *)

Section Client.

Context `{Krb5Types}.

(** An argument of a [cl.Log] call. *)
Inductive LogArg : Type :=
| log_string (s : string)
| log_Time (t : Time).

(** The part of the client and of its runtime that the two functions
    touch: the ticket cache, the system clock (the reading that each
    successive [time.Now()] returns), the lines handed to [cl.Log], and
    the number of error values allocated so far. *)
Record Client : Type := {
  cache : Cache;
  clock : nat → Time;
  ticks : nat;
  log : list (string * list LogArg);
  allocs : nat
}.

(** The arguments of one call to [TGSREQGenerateAndExchange]. *)
Record ExchangeCall : Type := {
  call_spn : types_PrincipalName;
  call_realm : string;
  call_tkt : messages_Ticket;
  call_sessionKey : types_EncryptionKey;
  call_renewal : bool
}.

(** Computations over the client that also list, in order, the calls
    they make to the exchange. *)
Definition M (A : Type) : Type := Client → A * Client * list ExchangeCall.

Definition ret {A : Type} (x : A) : M A := λ cl, (x, cl, []).

Definition bind {A B : Type} (m : M A) (f : A → M B) : M B :=
  λ cl, let '(a, cl1, calls1) := m cl in
        let '(b, cl2, calls2) := f a cl1 in
        (b, cl2, (calls1 ++ calls2)%list).

Notation "'let*' x := m 'in' k" := (bind m (λ x, k))
  (at level 10, x pattern, m at level 100, k at level 200, only parsing).

Notation "m >> k" := (bind m (λ _, k))
  (at level 100, k at level 200, right associativity, only parsing).

(** [cl.cache.getEntry(cname, spn)]. *)
Definition cache_getEntry (cname spn : string) : M (CacheEntry * bool) :=
  λ cl, (getEntry (cache cl) cname spn, cl, []).

(** [time.Now().UTC()]: the next reading of the clock. *)
Definition time_Now : M Time :=
  λ cl, (clock cl (ticks cl),
         {| cache := cache cl; clock := clock cl; ticks := S (ticks cl);
            log := log cl; allocs := allocs cl |}, []).

(** [cl.Log(format, args...)]. *)
Definition Log (format : string) (args : list LogArg) : M unit :=
  λ cl, (tt,
         {| cache := cache cl; clock := clock cl; ticks := ticks cl;
            log := (log cl ++ [(format, args)])%list;
            allocs := allocs cl |}, []).

(** [errors.New(text)]: a pointer to a fresh [errorString]. *)
Definition errors_New (text : string) : M error :=
  λ cl, (errorString (allocs cl) text,
         {| cache := cache cl; clock := clock cl; ticks := ticks cl;
            log := log cl; allocs := S (allocs cl) |}, []).

(** The ticket-granting exchange is defined elsewhere in the package.  It
    may change the client in any way, the cache in particular, and returns
    a ticket, a session key and an error. *)
Variable TGSREQGenerateAndExchange :
  Client → types_PrincipalName → string → messages_Ticket →
  types_EncryptionKey → bool →
  (messages_Ticket * types_EncryptionKey * option error) * Client.

(** [cl.TGSREQGenerateAndExchange(spn, realm, tkt, sessionKey, renewal)],
    recorded in the list of calls. *)
Definition exchange (spn : types_PrincipalName) (realm : string)
    (tkt : messages_Ticket) (sessionKey : types_EncryptionKey)
    (renewal : bool)
    : M (messages_Ticket * types_EncryptionKey * option error) :=
  λ cl, let '(r, cl') :=
          TGSREQGenerateAndExchange cl spn realm tkt sessionKey renewal in
        (r, cl', [{| call_spn := spn; call_realm := realm; call_tkt := tkt;
                     call_sessionKey := sessionKey;
                     call_renewal := renewal |}]).

(** [renewTicket] renews a cache entry ticket.  The second [getEntry]
    assigns to the parameter [e], so that on a failed lookup the entry
    returned with the error is the zero entry. *)
Definition renewTicket (e : CacheEntry) : M (CacheEntry * option error) :=
  let spn := SName (Ticket e) in
  let* (_, _, err) :=
    exchange spn (Realm (Ticket e)) (Ticket e) (SessionKey e) true in
  match err with
  | Some _ => ret (e, err)
  | None =>
      let* (e, ok) :=
        cache_getEntry (PrincipalNameString (CName e))
                       (PrincipalNameString (SName (Ticket e))) in
      if negb ok then
        let* err := errors_New "ticket was not added to cache" in
        ret (e, Some err)
      else
        Log "ticket renewed for %s (EndTime: %v)"
            [log_string (PrincipalNameString spn); log_Time (EndTime e)] >>
        ret (e, None)
  end.

(** [time.Now().UTC().After(e.StartTime) &&
     time.Now().UTC().Before(e.EndTime)]: the clock is read a second time
    only when the first comparison holds. *)
Definition within_window (e : CacheEntry) : M bool :=
  let* now := time_Now in
  if After now (StartTime e) then
    let* now := time_Now in
    ret (Before now (EndTime e))
  else ret false.

(** [GetCachedTicket] returns a ticket from the cache for the SPN.  Only
    a ticket that is currently valid will be returned. *)
Definition GetCachedTicket (cname spn : string)
    : M (messages_Ticket * types_EncryptionKey * bool) :=
  let* (e, ok) := cache_getEntry cname spn in
  if ok then
    let* valid := within_window e in
    if valid then
      Log "ticket received from cache for %s" [log_string spn] >>
      ret (Ticket e, SessionKey e, true)
    else
      let* now := time_Now in
      if Before now (RenewTill e) then
        let* (e, err) := renewTicket e in
        match err with
        | Some _ => ret (Ticket e, SessionKey e, false)
        | None => ret (Ticket e, SessionKey e, true)
        end
      else ret (zero_Ticket, zero_EncryptionKey, false)
  else ret (zero_Ticket, zero_EncryptionKey, false).

End Client.

(** Two entries that agree on every field but [Ticket] and
    [SessionKey]. *)
Definition same_but_secrets `{Krb5Types} (e1 e2 : CacheEntry) : Prop :=
  CName e1 = CName e2 ∧ SPN e1 = SPN e2 ∧ AuthTime e1 = AuthTime e2
  ∧ StartTime e1 = StartTime e2 ∧ EndTime e1 = EndTime e2
  ∧ RenewTill e1 = RenewTill e2.

(** Strictly ascending byte-wise order. *)
Definition string_lt (s1 s2 : string) : Prop := string_le s1 s2 ∧ s1 ≠ s2.

(** ** Reading the outcome of a run *)

Section Runs.

Context `{Krb5Types}.

Definition result_of {A : Type} (r : A * Client * list ExchangeCall) : A :=
  fst (fst r).

Definition client_of {A : Type} (r : A * Client * list ExchangeCall)
    : Client :=
  snd (fst r).

Definition calls_of {A : Type} (r : A * Client * list ExchangeCall)
    : list ExchangeCall :=
  snd r.

(** The client after [n] more readings of the clock. *)
Definition advance (n : nat) (cl : Client) : Client :=
  {| cache := cache cl; clock := clock cl; ticks := n + ticks cl;
     log := log cl; allocs := allocs cl |}.

(** The [i]-th reading of the clock, counted from zero, that a call
    starting in [cl] gets from [time.Now()]. *)
Definition reading (cl : Client) (i : nat) : Time := clock cl (i + ticks cl).

(** How many times [GetCachedTicket] has read the clock when it reaches
    [renewTicket]: the second comparison of the window test is evaluated
    only if the first one holds. *)
Definition readings_before_renewal (e : CacheEntry) (now : Time) : nat :=
  if After now (StartTime e) then 3 else 2.

(** The call by which [renewTicket] asks for the renewal of [e]. *)
Definition renewal_call (e : CacheEntry) : ExchangeCall :=
  {| call_spn := SName (Ticket e); call_realm := Realm (Ticket e);
     call_tkt := Ticket e; call_sessionKey := SessionKey e;
     call_renewal := true |}.

(** The exchange applied to the arguments of a recorded call. *)
Definition exchange_at
    (TGSREQGenerateAndExchange :
       Client → types_PrincipalName → string → messages_Ticket →
       types_EncryptionKey → bool →
       (messages_Ticket * types_EncryptionKey * option error) * Client)
    (cl : Client) (c : ExchangeCall) :=
  TGSREQGenerateAndExchange cl (call_spn c) (call_realm c) (call_tkt c)
    (call_sessionKey c) (call_renewal c).

(** The key under which [addEntry] stores an entry with these names. *)
Definition own_key (e : CacheEntry) : string :=
  key (PrincipalNameString (CName e))
      (PrincipalNameString (SName (Ticket e))).

(** Every entry sits under the key of its own names, as [addEntry]
    stores it. *)
Definition cache_wf (c : Cache) : Prop :=
  ∀ k e, Entries c !! k = Some e → k = own_key e.


(** What [GetCachedTicket] makes of the outcome of [renewTicket]. *)
Definition after_renewal (r : CacheEntry * option error * Client
                              * list ExchangeCall)
    : messages_Ticket * types_EncryptionKey * bool * Client
      * list ExchangeCall :=
  let '(e, err, cl, calls) := r in
  (Ticket e, SessionKey e,
   match err with Some _ => false | None => true end, cl, calls).

End Runs.

(** ** A concrete setting, to run the model *)

Module demo.

(** Principal names as lists of components, tickets as a realm, a
    service name and a payload, keys as byte strings. *)
Record ticket : Type := {
  tkt_realm : string;
  tkt_sname : list string;
  tkt_payload : string
}.

Definition types : Krb5Types :=
  {| types_PrincipalName := list string;
     PrincipalNameString := String.concat "/";
     messages_Ticket := ticket;
     SName := tkt_sname;
     Realm := tkt_realm;
     types_EncryptionKey := string;
     zero_PrincipalName := [];
     zero_Ticket :=
       {| tkt_realm := EmptyString; tkt_sname := [];
          tkt_payload := EmptyString |};
     zero_EncryptionKey := EmptyString |}.

#[local] Existing Instance types.

Definition alice : list string := ["alice"].
Definition bob : list string := ["bob"].

Definition http_ticket (payload : string) : ticket :=
  {| tkt_realm := "EXAMPLE.ORG"; tkt_sname := ["HTTP"; "server"];
     tkt_payload := payload |}.

(** A cache with one entry for alice and the HTTP service, valid from 10
    to 20 and renewable until 30. *)
Definition one_entry (payload sessionKey : string) : Cache :=
  fst (addEntry NewCache alice (http_ticket payload) 5 10 20 30 sessionKey).

Definition stale : CacheEntry :=
  snd (addEntry NewCache alice (http_ticket "old") 5 10 20 30 "k-old").

(** The entry that [renewing] below stores. *)
Definition fresh : CacheEntry :=
  snd (addEntry NewCache alice (http_ticket "new") 5 25 40 60 "k-new").

(** The same two entries, for alice and for bob, inserted in either
    order. *)
Definition alice_then_bob (payload sessionKey : string) : Cache :=
  fst (addEntry (one_entry payload sessionKey) bob (http_ticket payload)
         6 11 21 31 sessionKey).

Definition bob_then_alice (payload sessionKey : string) : Cache :=
  fst (addEntry
         (fst (addEntry NewCache bob (http_ticket payload) 6 11 21 31
                 sessionKey))
         alice (http_ticket payload) 5 10 20 30 sessionKey).

Definition alice_key : string := key "alice" "HTTP/server".
Definition bob_key : string := key "bob" "HTTP/server".

(** A client holding [one_entry], with the clock standing at [now]. *)
Definition client_at (now : Time) : Client :=
  {| cache := one_entry "old" "k-old"; clock := λ _, now; ticks := 0;
     log := []; allocs := 0 |}.

Definition with_cache (c : Cache) (cl : Client) : Client :=
  {| cache := c; clock := clock cl; ticks := ticks cl; log := log cl;
     allocs := allocs cl |}.

(** An exchange that always fails. *)
Definition refusing (cl : Client) (spn : list string) (realm : string)
    (tkt : ticket) (sessionKey : string) (renewal : bool)
    : (ticket * string * option error) * Client :=
  ((zero_Ticket, zero_EncryptionKey,
    Some (otherError "krberror.Krberror" "KDC unreachable")), cl).

(** An exchange that stores a renewed ticket for alice, valid until 40. *)
Definition renewing (cl : Client) (spn : list string) (realm : string)
    (tkt : ticket) (sessionKey : string) (renewal : bool)
    : (ticket * string * option error) * Client :=
  let tkt' := {| tkt_realm := realm; tkt_sname := spn;
                 tkt_payload := "new" |} in
  ((tkt', "k-new", None),
   with_cache (fst (addEntry (cache cl) alice tkt' 5 25 40 60 "k-new")) cl).


(** Field encoders without escaping, and integer instants. *)
Definition quote (s : string) : string := dquote ++ s ++ dquote.

Definition marshal_PrincipalName (pn : @types_PrincipalName types) : json :=
  json_object
    [("NameString", json_array (map (λ s, json_literal (quote s)) pn))].

Definition Time_MarshalJSON (t : Time) : string + error :=
  if (t <? 0)%Z
  then inr (otherError "*json.MarshalerError" "year outside of range")
  else inl (quote (pretty t)).

End demo.

(** ** Keys read back, sequences of insertions, and the caches the
    operations build *)

(** A string cut at its first colon. *)
Fixpoint cut_at_colon (s : string) : option (string * string) :=
  match s with
  | EmptyString => None
  | String c s' =>
      if Ascii.eqb c ":"
      then Some (EmptyString, s')
      else match cut_at_colon s' with
           | Some (a, b) => Some (String c a, b)
           | None => None
           end
  end.

(** The two names read back from a key of the map. *)
Definition unkey (k : string) : option (string * string) :=
  match cut_at_colon k with
  | Some (a, b) =>
      match base64.DecodeString a, base64.DecodeString b with
      | Some cname, Some spn => Some (cname, spn)
      | _, _ => None
      end
  | None => None
  end.

Section Store.

Context `{Krb5Types}.

(** The arguments of one call to [addEntry]. *)
Record AddArgs : Type := {
  add_cname : types_PrincipalName;
  add_tkt : messages_Ticket;
  add_authTime : Time;
  add_startTime : Time;
  add_endTime : Time;
  add_renewTill : Time;
  add_sessionKey : types_EncryptionKey
}.

(** The pair of names under which the call stores its entry. *)
Definition add_names (a : AddArgs) : string * string :=
  (PrincipalNameString (add_cname a),
   PrincipalNameString (SName (add_tkt a))).

(** The cache after [c.addEntry(...)]. *)
Definition addEntry_with (c : Cache) (a : AddArgs) : Cache :=
  fst (addEntry c (add_cname a) (add_tkt a) (add_authTime a)
         (add_startTime a) (add_endTime a) (add_renewTill a)
         (add_sessionKey a)).

(** The cache after a sequence of calls to [addEntry]. *)
Definition addEntries (c : Cache) (l : list AddArgs) : Cache :=
  foldl addEntry_with c l.

(** The caches that [NewCache], [addEntry], [RemoveEntry] and [clear]
    build. *)
Inductive built : Cache → Prop :=
| built_NewCache : built NewCache
| built_addEntry (c : Cache) (a : AddArgs) :
    built c → built (addEntry_with c a)
| built_RemoveEntry (c : Cache) (cname spn : string) :
    built c → built (RemoveEntry c cname spn)
| built_clear (c : Cache) (iter : list string) :
    built c → range_order c iter → built (clear c iter).

End Store.

(** The four instants of an entry can all be marshalled. *)
Definition times_marshal `{Krb5Types}
    (Time_MarshalJSON : Time → string + error) (e : CacheEntry) : Prop :=
  ∀ t, t ∈ [AuthTime e; StartTime e; EndTime e; RenewTill e] →
       ∃ text, Time_MarshalJSON t = inl text.

(** ** More of the concrete setting *)

Module demo_store.

Import demo.

#[local] Existing Instance demo.types.

(** The insertions behind [alice_then_bob] and [bob_then_alice]. *)
Definition add_alice : AddArgs :=
  {| add_cname := alice; add_tkt := http_ticket "old"; add_authTime := 5;
     add_startTime := 10; add_endTime := 20; add_renewTill := 30;
     add_sessionKey := "k-old" |}.

Definition add_bob : AddArgs :=
  {| add_cname := bob; add_tkt := http_ticket "old"; add_authTime := 6;
     add_startTime := 11; add_endTime := 21; add_renewTill := 31;
     add_sessionKey := "k-old" |}.

(** A client holding [one_entry] whose clock reads [t0], [t0 + step],
    [t0 + 2 * step] and so on. *)
Definition client_moving (t0 step : Time) : Client :=
  {| cache := one_entry "old" "k-old";
     clock := λ i, (t0 + step * Z.of_nat i)%Z; ticks := 0;
     log := []; allocs := 0 |}.

(** A client whose only entry has been removed. *)
Definition emptied (now : Time) : Client :=
  with_cache (RemoveEntry (one_entry "old" "k-old") "alice" "HTTP/server")
    (client_at now).

(** A cache with one entry whose start cannot be marshalled. *)
Definition before_year_zero : Cache :=
  fst (addEntry NewCache alice (http_ticket "old") 5 (-1) 20 30 "k-old").

End demo_store.

(** * Properties *)

(** ** Base64 is reversible *)

Module base64_facts.

Import base64.

Local Open Scope N_scope.

Ltac euclid := zify; Z.to_euclidean_division_equations; lia.

(** [x | y] adds up when [y] fits below the trailing zeros of [x]. *)
Lemma lor_disjoint (x y n : N) :
  x mod 2 ^ n = 0 → y < 2 ^ n → N.lor x y = x + y.
Proof.
  intros Hx Hy.
  assert (Hland : N.land x y = 0).
  { apply N.bits_inj. intros m. rewrite N.land_spec, N.bits_0.
    destruct (N.lt_ge_cases m n) as [Hm | Hm].
    - rewrite <- (N.mod_pow2_bits_low x n m Hm), Hx, N.bits_0. reflexivity.
    - rewrite <- (N.mod_small y (2 ^ n) Hy), N.mod_pow2_bits_high by assumption.
      apply andb_false_r. }
  rewrite <- N.lxor_lor by assumption.
  symmetry. apply N.add_nocarry_lxor. assumption.
Qed.

Lemma uint_bounded (b : ascii) : uint b < 256.
Proof. apply N_ascii_bounded. Qed.

(** The 24-bit group of three bytes, as a sum. *)
Lemma group_value (b0 b1 b2 : N) :
  b0 < 256 → b1 < 256 → b2 < 256 →
  N.lor (N.lor (N.shiftl b0 16) (N.shiftl b1 8)) b2
  = b0 * 65536 + b1 * 256 + b2.
Proof.
  intros H0 H1 H2. rewrite !N.shiftl_mul_pow2.
  change (2 ^ 16) with 65536. change (2 ^ 8) with 256.
  rewrite (lor_disjoint (b0 * 65536) (b1 * 256) 16).
  - rewrite (lor_disjoint _ b2 8).
    + reflexivity.
    + change (2 ^ 8) with 256. euclid.
    + exact H2.
  - change (2 ^ 16) with 65536. euclid.
  - change (2 ^ 16) with 65536. lia.
Qed.

Lemma sextet_index (val shift : N) : N.land (N.shiftr val shift) 63 < 64.
Proof.
  change 63 with (N.ones 6). rewrite N.land_ones.
  apply N.mod_lt. discriminate.
Qed.

(** Reassembling the four sextets of a 24-bit value gives it back. *)
Lemma quantum_sextets (val : N) :
  val < 16777216 →
  quantum (N.land (N.shiftr val 18) 63) (N.land (N.shiftr val 12) 63)
          (N.land (N.shiftr val 6) 63) (N.land (N.shiftr val 0) 63) = val.
Proof.
  intros Hval. unfold quantum.
  change 63 with (N.ones 6). rewrite !N.land_ones, !N.shiftr_div_pow2,
    !N.shiftl_mul_pow2.
  change (2 ^ 18) with 262144. change (2 ^ 12) with 4096.
  change (2 ^ 6) with 64. change (2 ^ 0) with 1.
  rewrite (lor_disjoint (_ * 262144) _ 18);
    [ | change (2 ^ 18) with 262144; euclid .. ].
  rewrite (lor_disjoint _ (_ * 64) 12);
    [ | change (2 ^ 12) with 4096; euclid .. ].
  rewrite (lor_disjoint _ _ 6); [ | change (2 ^ 6) with 64; euclid .. ].
  euclid.
Qed.

Lemma octet_of_sum (b0 b1 b2 : N) :
  b0 < 256 → b1 < 256 → b2 < 256 →
  let val := b0 * 65536 + b1 * 256 + b2 in
  N.land (N.shiftr val 16) 255 = b0
  ∧ N.land (N.shiftr val 8) 255 = b1
  ∧ N.land (N.shiftr val 0) 255 = b2.
Proof.
  intros H0 H1 H2 val. subst val.
  change 255 with (N.ones 8). rewrite !N.land_ones, !N.shiftr_div_pow2.
  change (2 ^ 16) with 65536. change (2 ^ 8) with 256.
  change (2 ^ 0) with 1.
  repeat split; euclid.
Qed.

(** Every index below 64 is read back from its character. *)
Lemma decodeMap_encode (i : N) : i < 64 → decodeMap (encode i) = Some i.
Proof.
  intros Hi.
  destruct i as [ | p ]; [ reflexivity | ].
  do 6 (destruct p as [ p | p | ]; try reflexivity); lia.
Qed.

Lemma decodeMap_sextet (val shift : N) :
  decodeMap (sextet val shift) = Some (N.land (N.shiftr val shift) 63).
Proof. apply decodeMap_encode, sextet_index. Qed.

(** Neither the padding character nor the colon is in the alphabet. *)
Lemma encode_not_pad (i : N) : i < 64 → is_pad (encode i) = false.
Proof.
  intros Hi. unfold is_pad. apply Ascii.eqb_neq. intros Heq.
  pose proof (decodeMap_encode i Hi) as Hdec.
  rewrite Heq in Hdec. discriminate Hdec.
Qed.

Lemma sextet_not_pad (val shift : N) : is_pad (sextet val shift) = false.
Proof. apply encode_not_pad, sextet_index. Qed.

Lemma encode_not_colon (i : N) : i < 64 → encode i ≠ ":"%char.
Proof.
  intros Hi Heq. pose proof (decodeMap_encode i Hi) as Hdec.
  rewrite Heq in Hdec. discriminate Hdec.
Qed.

Lemma octet_uint (b : ascii) : ascii_of_N (uint b) = b.
Proof. apply ascii_N_embedding. Qed.

(** The three bytes of a full group are read back from its sextets. *)
Lemma decode_group3 (b0 b1 b2 : ascii) :
  let val := N.lor (N.lor (N.shiftl (uint b0) 16) (N.shiftl (uint b1) 8))
                   (uint b2) in
  let q := quantum (N.land (N.shiftr val 18) 63) (N.land (N.shiftr val 12) 63)
                   (N.land (N.shiftr val 6) 63) (N.land (N.shiftr val 0) 63) in
  octet q 16 = b0 ∧ octet q 8 = b1 ∧ octet q 0 = b2.
Proof.
  intros val q.
  pose proof (uint_bounded b0) as H0. pose proof (uint_bounded b1) as H1.
  pose proof (uint_bounded b2) as H2.
  assert (Hval : val = uint b0 * 65536 + uint b1 * 256 + uint b2)
    by (apply group_value; assumption).
  assert (Hq : q = val) by (apply quantum_sextets; lia).
  destruct (octet_of_sum _ _ _ H0 H1 H2) as (E0 & E1 & E2).
  unfold octet. rewrite Hq, Hval, E0, E1, E2, !octet_uint. auto.
Qed.

(** A final group of two bytes: the fourth sextet is not transmitted. *)
Lemma decode_group2 (b0 b1 : ascii) :
  let val := N.lor (N.shiftl (uint b0) 16) (N.shiftl (uint b1) 8) in
  let q := quantum (N.land (N.shiftr val 18) 63) (N.land (N.shiftr val 12) 63)
                   (N.land (N.shiftr val 6) 63) 0 in
  octet q 16 = b0 ∧ octet q 8 = b1.
Proof.
  intros val q.
  pose proof (uint_bounded b0) as H0. pose proof (uint_bounded b1) as H1.
  assert (Hval : val = uint b0 * 65536 + uint b1 * 256 + 0).
  { rewrite <- group_value by lia. symmetry. apply N.lor_0_r. }
  assert (Hlow : N.land (N.shiftr val 0) 63 = 0).
  { change 63 with (N.ones 6). rewrite N.land_ones, N.shiftr_0_r, Hval.
    change (2 ^ 6) with 64. euclid. }
  assert (Hq : q = val).
  { rewrite <- (quantum_sextets val) by lia. unfold q.
    rewrite Hlow. reflexivity. }
  destruct (octet_of_sum (uint b0) (uint b1) 0) as (E0 & E1 & _); [ lia .. | ].
  unfold octet. rewrite Hq, Hval, E0, E1, !octet_uint. auto.
Qed.

(** A final group of one byte: only two sextets are transmitted. *)
Lemma decode_group1 (b0 : ascii) :
  let val := N.shiftl (uint b0) 16 in
  let q := quantum (N.land (N.shiftr val 18) 63) (N.land (N.shiftr val 12) 63)
                   0 0 in
  octet q 16 = b0.
Proof.
  intros val q.
  pose proof (uint_bounded b0) as H0.
  assert (Hval : val = uint b0 * 65536 + 0 * 256 + 0).
  { rewrite <- group_value by lia. change (N.shiftl 0 8) with 0.
    rewrite !N.lor_0_r. reflexivity. }
  assert (Hmid : N.land (N.shiftr val 6) 63 = 0).
  { change 63 with (N.ones 6). rewrite N.land_ones, N.shiftr_div_pow2, Hval.
    change (2 ^ 6) with 64. euclid. }
  assert (Hlow : N.land (N.shiftr val 0) 63 = 0).
  { change 63 with (N.ones 6). rewrite N.land_ones, N.shiftr_0_r, Hval.
    change (2 ^ 6) with 64. euclid. }
  assert (Hq : q = val).
  { rewrite <- (quantum_sextets val) by lia. unfold q.
    rewrite Hmid, Hlow. reflexivity. }
  destruct (octet_of_sum (uint b0) 0 0) as (E0 & _); [ lia .. | ].
  unfold octet. rewrite Hq, Hval, E0, octet_uint. reflexivity.
Qed.

(** Decoding undoes encoding, on strings of length at most [n]. *)
Lemma DecodeString_EncodeToString_upto (n : nat) (src : string) :
  (String.length src ≤ n)%nat → DecodeString (EncodeToString src) = Some src.
Proof.
  revert src. induction (lt_wf n) as [ n _ IH ]. intros src Hlen.
  destruct src as [ | b0 [ | b1 [ | b2 rest ] ] ].
  - reflexivity.
  - cbn [EncodeToString DecodeString].
    rewrite !decodeMap_sextet.
    change (is_pad StdPadding) with true. cbn [andb is_empty].
    rewrite (decode_group1 b0). reflexivity.
  - cbn [EncodeToString DecodeString].
    rewrite !decodeMap_sextet, sextet_not_pad.
    change (is_pad StdPadding) with true. cbn [is_empty].
    destruct (decode_group2 b0 b1) as [ E0 E1 ].
    cbv zeta. rewrite E0, E1. reflexivity.
  - cbn [EncodeToString DecodeString]. cbv zeta.
    rewrite !decodeMap_sextet, !sextet_not_pad.
    cbn [String.length] in Hlen.
    rewrite (IH (String.length rest)) by lia.
    destruct (decode_group3 b0 b1 b2) as (E0 & E1 & E2).
    cbv zeta in E0, E1, E2. rewrite E0, E1, E2. reflexivity.
Qed.

Lemma DecodeString_EncodeToString (src : string) :
  DecodeString (EncodeToString src) = Some src.
Proof. apply (DecodeString_EncodeToString_upto (String.length src)). lia. Qed.

Lemma EncodeToString_inj (s1 s2 : string) :
  EncodeToString s1 = EncodeToString s2 → s1 = s2.
Proof.
  intros Heq. pose proof (DecodeString_EncodeToString s1) as H1.
  rewrite Heq, DecodeString_EncodeToString in H1. congruence.
Qed.

Lemma sextet_not_colon (val shift : N) : sextet val shift ≠ ":"%char.
Proof. apply encode_not_colon, sextet_index. Qed.

(** The separator never occurs in an encoded component. *)
Lemma EncodeToString_no_colon_upto (n : nat) (src : string) :
  (String.length src ≤ n)%nat → ¬ occurs ":" (EncodeToString src).
Proof.
  revert src. induction (lt_wf n) as [ n _ IH ]. intros src Hlen.
  destruct src as [ | b0 [ | b1 [ | b2 rest ] ] ];
    cbn [EncodeToString occurs]; cbv zeta.
  - tauto.
  - intros [ E | [ E | [ E | [ E | [] ] ] ] ];
      solve [ discriminate E | exact (sextet_not_colon _ _ E) ].
  - intros [ E | [ E | [ E | [ E | [] ] ] ] ];
      solve [ discriminate E | exact (sextet_not_colon _ _ E) ].
  - cbn [String.length] in Hlen.
    intros [ E | [ E | [ E | [ E | Hrest ] ] ] ];
      try exact (sextet_not_colon _ _ E).
    exact (IH (String.length rest) ltac:(lia) rest ltac:(lia) Hrest).
Qed.

Lemma EncodeToString_no_colon (src : string) :
  ¬ occurs ":" (EncodeToString src).
Proof.
  apply (EncodeToString_no_colon_upto (String.length src)). lia.
Qed.

End base64_facts.

(** ** The key encoding *)

(** Two strings that are cut at their first colon agree part by part. *)
Lemma split_at_colon (s1 s2 t1 t2 : string) :
  ¬ occurs ":" s1 → ¬ occurs ":" s2 →
  (s1 ++ ":" ++ t1 = s2 ++ ":" ++ t2)%string → s1 = s2 ∧ t1 = t2.
Proof.
  revert s2. induction s1 as [ | x s1 IH ]; intros [ | y s2 ] H1 H2 Heq;
    simpl in *.
  - injection Heq as Heq. auto.
  - injection Heq as Hy _. symmetry in Hy. tauto.
  - injection Heq as Hx _. tauto.
  - injection Heq as Hxy Heq.
    destruct (IH s2) as [ Hs Ht ]; [ tauto .. | assumption | ].
    subst. auto.
Qed.

Lemma key_inj (a b c d : string) : key a b = key c d → a = c ∧ b = d.
Proof.
  unfold key. intros Heq.
  apply split_at_colon in Heq;
    [ | apply base64_facts.EncodeToString_no_colon .. ].
  destruct Heq as [ Ha Hb ].
  split; apply base64_facts.EncodeToString_inj; assumption.
Qed.

(** C6. The key encoding is injective: two different pairs of names
    never get the same key, whatever the names contain (a colon, or one
    name a prefix of the other). *)
Theorem key_injective (a b c d : string) :
  (a, b) ≠ (c, d) → key a b ≠ key c d.
Proof.
  intros Hne Heq. apply Hne. destruct (key_inj _ _ _ _ Heq) as [ -> -> ].
  reflexivity.
Qed.

Lemma key_injective_witness :
  ("a:", "b") ≠ ("a", ":b") ∧ key "a:" "b" ≠ key "a" ":b".
Proof.
  split; [ discriminate | apply key_injective; discriminate ].
Defined.

Example key_alice :
  key "alice" "HTTP/server" = "YWxpY2U=:SFRUUC9zZXJ2ZXI=".
Proof. reflexivity. Qed.

(** ** The cache store *)

Section Cache_facts.

Context `{Krb5Types}.

Lemma cache_wf_NewCache : cache_wf NewCache.
Proof.
  intros k e Hlook. cbn in Hlook. rewrite lookup_empty in Hlook.
  discriminate.
Qed.

(** [addEntry] stores the entry under the key of its own names and
    returns it. *)
Lemma addEntry_stored (c : Cache) (cname : types_PrincipalName)
    (tkt : messages_Ticket) (authTime startTime endTime renewTill : Time)
    (sessionKey : types_EncryptionKey) :
  let r := addEntry c cname tkt authTime startTime endTime renewTill
             sessionKey in
  Entries (fst r) !! own_key (snd r) = Some (snd r)
  ∧ Ticket (snd r) = tkt ∧ SessionKey (snd r) = sessionKey
  ∧ CName (snd r) = cname.
Proof.
  unfold addEntry, index_Entries, own_key. cbn.
  rewrite lookup_insert_eq. cbn. rewrite lookup_insert_eq. auto.
Qed.

Lemma cache_wf_addEntry (c : Cache) (cname : types_PrincipalName)
    (tkt : messages_Ticket) (authTime startTime endTime renewTill : Time)
    (sessionKey : types_EncryptionKey) :
  cache_wf c →
  cache_wf (fst (addEntry c cname tkt authTime startTime endTime renewTill
                   sessionKey)).
Proof.
  intros Hwf k e. unfold addEntry. cbn. rewrite lookup_insert.
  case_decide as Hk.
  - intros [= <-]. symmetry. exact Hk.
  - apply Hwf.
Qed.

Lemma cache_wf_RemoveEntry (c : Cache) (cname spn : string) :
  cache_wf c → cache_wf (RemoveEntry c cname spn).
Proof.
  intros Hwf k e. unfold RemoveEntry. cbn. rewrite lookup_delete.
  case_decide; [ discriminate | apply Hwf ].
Qed.

(** A second entry for the same names replaces the first entirely. *)
Lemma addEntry_overwrites (c : Cache) (cname : types_PrincipalName)
    (tkt1 tkt2 : messages_Ticket) (a1 s1 e1 r1 a2 s2 e2 r2 : Time)
    (k1 k2 : types_EncryptionKey) :
  PrincipalNameString (SName tkt1) = PrincipalNameString (SName tkt2) →
  fst (addEntry (fst (addEntry c cname tkt1 a1 s1 e1 r1 k1))
         cname tkt2 a2 s2 e2 r2 k2)
  = fst (addEntry c cname tkt2 a2 s2 e2 r2 k2).
Proof.
  intros Hspn. unfold addEntry. cbn. rewrite Hspn, insert_insert_eq.
  reflexivity.
Qed.

(** Entries for different names can be added in either order. *)
Lemma addEntry_commute (c : Cache) (cname1 cname2 : types_PrincipalName)
    (tkt1 tkt2 : messages_Ticket) (a1 s1 e1 r1 a2 s2 e2 r2 : Time)
    (k1 k2 : types_EncryptionKey) :
  (PrincipalNameString cname1, PrincipalNameString (SName tkt1))
  ≠ (PrincipalNameString cname2, PrincipalNameString (SName tkt2)) →
  fst (addEntry (fst (addEntry c cname1 tkt1 a1 s1 e1 r1 k1))
         cname2 tkt2 a2 s2 e2 r2 k2)
  = fst (addEntry (fst (addEntry c cname2 tkt2 a2 s2 e2 r2 k2))
           cname1 tkt1 a1 s1 e1 r1 k1).
Proof.
  intros Hne. unfold addEntry. cbn. f_equal. apply insert_insert_ne.
  intros Heq. apply Hne. destruct (key_inj _ _ _ _ Heq) as [ -> -> ].
  reflexivity.
Qed.

(** After [RemoveEntry] the names are no longer found. *)
Lemma getEntry_RemoveEntry (c : Cache) (cname spn : string) :
  getEntry (RemoveEntry c cname spn) cname spn = (zero_CacheEntry, false).
Proof.
  unfold getEntry, index_Entries, RemoveEntry. cbn.
  rewrite lookup_delete_eq. reflexivity.
Qed.

Lemma foldl_delete_lookup (iter : list string)
    (m : gmap string CacheEntry) (k : string) :
  foldl (λ m k, delete k m) m iter !! k
  = if decide (k ∈ iter) then None else m !! k.
Proof.
  revert m. induction iter as [ | k' iter IH ]; intros m; cbn [foldl].
  - rewrite decide_False by apply not_elem_of_nil. reflexivity.
  - rewrite IH. destruct (decide (k ∈ iter)) as [ Hin | Hnotin ].
    + rewrite decide_True by (right; exact Hin). reflexivity.
    + destruct (decide (k = k')) as [ -> | Hne ].
      * rewrite decide_True by left. apply lookup_delete_eq.
      * rewrite decide_False by (rewrite elem_of_cons; tauto).
        apply lookup_delete_ne. congruence.
Qed.

(** [clear] empties the cache, whatever the order of the deletions. *)
Lemma clear_empties (c : Cache) (iter : list string) :
  range_order c iter → clear c iter = NewCache.
Proof.
  intros Hiter. unfold clear, NewCache. f_equal. apply map_eq. intros k.
  rewrite foldl_delete_lookup, lookup_empty.
  case_decide as Hin; [ reflexivity | ].
  destruct (Entries c !! k) as [ e | ] eqn:Hlook; [ | reflexivity ].
  exfalso. apply Hin. unfold range_order in Hiter. rewrite Hiter.
  apply list_elem_of_fmap. exists (k, e). split; [ reflexivity | ].
  apply elem_of_map_to_list. exact Hlook.
Qed.

End Cache_facts.

(** ** The order of [sort.Strings] *)

Lemma Ascii_compare_refl (a : ascii) : Ascii.compare a a = Eq.
Proof. unfold Ascii.compare. apply N.compare_refl. Qed.

Lemma Ascii_compare_lt_trans (a b c : ascii) :
  Ascii.compare a b = Lt → Ascii.compare b c = Lt → Ascii.compare a c = Lt.
Proof.
  unfold Ascii.compare. rewrite !N.compare_lt_iff. lia.
Qed.

Lemma String_compare_not_gt_trans (s1 s2 s3 : string) :
  String.compare s1 s2 ≠ Gt → String.compare s2 s3 ≠ Gt →
  String.compare s1 s3 ≠ Gt.
Proof.
  revert s2 s3.
  induction s1 as [ | a s1 IH ]; intros [ | b s2 ] [ | c s3 ]; simpl;
    try congruence.
  destruct (Ascii.compare a b) eqn:Hab; try congruence;
    destruct (Ascii.compare b c) eqn:Hbc; try congruence; intros H12 H23.
  - apply Ascii.compare_eq_iff in Hab, Hbc. subst.
    rewrite Ascii_compare_refl. eauto.
  - apply Ascii.compare_eq_iff in Hab. subst. rewrite Hbc. congruence.
  - apply Ascii.compare_eq_iff in Hbc. subst. rewrite Hab. congruence.
  - rewrite (Ascii_compare_lt_trans a b c Hab Hbc). congruence.
Qed.

Lemma string_le_not_gt (s1 s2 : string) :
  string_le s1 s2 ↔ String.compare s1 s2 ≠ Gt.
Proof.
  unfold string_le, String.leb. destruct (String.compare s1 s2); split;
    congruence.
Qed.

Global Instance string_le_trans : Transitive string_le.
Proof.
  intros s1 s2 s3. rewrite !string_le_not_gt.
  apply String_compare_not_gt_trans.
Qed.

Global Instance string_le_total : Total string_le.
Proof. intros s1 s2. apply String.leb_total. Qed.

Global Instance string_le_antisym : AntiSymm (=) string_le.
Proof. intros s1 s2. apply String.leb_antisym. Qed.

(** [sort.Strings] returns the ascending arrangement of its argument,
    and that arrangement does not depend on the order it started from. *)
Lemma sort_Strings_sorted (keys : list string) :
  StronglySorted string_le (sort_Strings keys).
Proof. apply StronglySorted_merge_sort; apply _. Qed.

Lemma sort_Strings_Permutation (keys : list string) :
  sort_Strings keys ≡ₚ keys.
Proof. apply merge_sort_Permutation. Qed.

Lemma sort_Strings_order_irrelevant (keys1 keys2 : list string) :
  keys1 ≡ₚ keys2 → sort_Strings keys1 = sort_Strings keys2.
Proof.
  intros Hperm. apply (StronglySorted_unique string_le).
  - apply sort_Strings_sorted.
  - apply sort_Strings_sorted.
  - rewrite !sort_Strings_Permutation. exact Hperm.
Qed.

(** ** The exported snapshot *)

Section JSON_facts.

Context `{Krb5Types}.

Variable quote : string → string.
Variable marshal_PrincipalName : types_PrincipalName → json.
Variable Time_MarshalJSON : Time → string + error.

Local Abbreviation marshal_entry :=
  (marshal_CacheEntry quote marshal_PrincipalName Time_MarshalJSON).
Local Abbreviation marshal_indent :=
  (MarshalIndent quote marshal_PrincipalName Time_MarshalJSON).
Local Abbreviation to_JSON :=
  (JSON quote marshal_PrincipalName Time_MarshalJSON).

(** A range order lists exactly the keys of the map, each once. *)
Lemma range_order_elem_of (c : Cache) (iter : list string) (k : string) :
  range_order c iter → k ∈ iter ↔ is_Some (Entries c !! k).
Proof.
  unfold range_order. intros ->. rewrite list_elem_of_fmap. split.
  - intros ([ k' e ] & -> & Hin). apply elem_of_map_to_list in Hin. eauto.
  - intros [ e He ]. exists (k, e). split; [ reflexivity | ].
    apply elem_of_map_to_list. exact He.
Qed.

Lemma range_order_NoDup (c : Cache) (iter : list string) :
  range_order c iter → NoDup iter.
Proof.
  unfold range_order. intros ->. apply NoDup_fst_map_to_list.
Qed.

(** Two maps with the same keys are ranged over in orders that are
    permutations of each other. *)
Lemma range_order_Permutation (c1 c2 : Cache) (iter1 iter2 : list string) :
  (∀ k, is_Some (Entries c1 !! k) ↔ is_Some (Entries c2 !! k)) →
  range_order c1 iter1 → range_order c2 iter2 → iter1 ≡ₚ iter2.
Proof.
  intros Hdom H1 H2. apply NoDup_Permutation; eauto using range_order_NoDup.
  intros k. rewrite (range_order_elem_of c1), (range_order_elem_of c2);
    auto.
Qed.

(** The marshalled form of an entry is a function of its exported
    fields. *)
Lemma marshal_CacheEntry_same_but_secrets (e1 e2 : CacheEntry) :
  same_but_secrets e1 e2 → marshal_entry e1 = marshal_entry e2.
Proof.
  intros (E1 & E2 & E3 & E4 & E5 & E6). unfold marshal_CacheEntry.
  rewrite E1, E2, E3, E4, E5, E6. reflexivity.
Qed.

Lemma MarshalIndent_same_but_secrets (es1 es2 : list CacheEntry) :
  Forall2 same_but_secrets es1 es2 → marshal_indent es1 = marshal_indent es2.
Proof.
  intros Hes.
  assert (Hall : marshal_all marshal_entry es1
                 = marshal_all marshal_entry es2).
  { induction Hes as [ | e1 e2 es1 es2 He _ IH ]; [ reflexivity | ].
    cbn [marshal_all].
    rewrite (marshal_CacheEntry_same_but_secrets e1 e2 He), IH.
    reflexivity. }
  unfold MarshalIndent. rewrite Hall.
  destruct Hes; reflexivity.
Qed.

(** The slice [es] of two caches that differ only in secrets. *)
Lemma snapshot_same_but_secrets (c1 c2 : Cache) (iter1 iter2 : list string) :
  (∀ k, option_Forall2 same_but_secrets (Entries c1 !! k) (Entries c2 !! k)) →
  range_order c1 iter1 → range_order c2 iter2 →
  Forall2 same_but_secrets (snapshot c1 iter1) (snapshot c2 iter2).
Proof.
  intros Hsame H1 H2. unfold snapshot.
  assert (Hperm : iter1 ≡ₚ iter2).
  { apply (range_order_Permutation c1 c2); try assumption.
    intros k. destruct (Hsame k); split; intros [ ? ? ]; eauto; discriminate. }
  rewrite (sort_Strings_order_irrelevant iter1 iter2 Hperm).
  induction (sort_Strings iter2) as [ | k keys IH ]; cbn [map];
    constructor; [ | exact IH ].
  unfold index_Entries. destruct (Hsame k) as [ e1 e2 He | ]; cbn [fst].
  - exact He.
  - repeat split.
Qed.

(** C7. The export exposes no secret material: two caches whose entries
    are the same except for their [Ticket] and [SessionKey] fields give
    the same [JSON] output, whatever the order in which each map is
    ranged over. *)
Theorem JSON_redacts_secrets (c1 c2 : Cache) (iter1 iter2 : list string) :
  (∀ k, option_Forall2 same_but_secrets (Entries c1 !! k) (Entries c2 !! k)) →
  range_order c1 iter1 → range_order c2 iter2 →
  to_JSON c1 iter1 = to_JSON c2 iter2.
Proof.
  intros Hsame H1 H2. unfold JSON.
  rewrite (MarshalIndent_same_but_secrets _ _
             (snapshot_same_but_secrets c1 c2 iter1 iter2 Hsame H1 H2)).
  reflexivity.
Qed.

(** A sorted list without repetition is strictly ascending. *)
Lemma StronglySorted_strict (keys : list string) :
  StronglySorted string_le keys → NoDup keys →
  StronglySorted string_lt keys.
Proof.
  intros Hsorted. induction Hsorted as [ | k keys _ IH Hk ]; intros Hnd;
    constructor; apply NoDup_cons in Hnd; destruct Hnd as [ Hnotin Hnd ].
  - apply IH. exact Hnd.
  - rewrite Forall_forall in Hk |- *. intros k' Hin. split.
    + apply Hk. exact Hin.
    + intros ->. apply Hnotin. exact Hin.
Qed.

(** The slice [es] holds the entry stored under each sorted key. *)
Lemma snapshot_lookup (c : Cache) (iter : list string) :
  range_order c iter →
  Forall2 (λ k e, Entries c !! k = Some e) (sort_Strings iter)
          (snapshot c iter).
Proof.
  intros Hiter. unfold snapshot.
  assert (Hin : ∀ k, k ∈ sort_Strings iter → is_Some (Entries c !! k)).
  { intros k. rewrite sort_Strings_Permutation.
    apply range_order_elem_of. exact Hiter. }
  induction (sort_Strings iter) as [ | k keys IH ]; cbn [map]; constructor.
  - destruct (Hin k) as [ e He ]; [ left | ].
    unfold index_Entries. rewrite He. reflexivity.
  - apply IH. intros k' Hk'. apply Hin. right. exact Hk'.
Qed.

(** Entries that marshal one by one marshal together, in order. *)
Lemma marshal_all_Forall2 {A : Type} (f : A → json + error) (l : list A)
    (vs : list json) :
  Forall2 (λ x v, f x = inl v) l vs → marshal_all f l = inl vs.
Proof.
  induction 1 as [ | x v l vs Hx _ IH ]; cbn; [ reflexivity | ].
  rewrite Hx, IH. reflexivity.
Qed.

(** C8. [JSON] lists the entries in strictly ascending order of their
    keys, each key of the map once: the string it returns is the
    indented marshalling of that list, an array whose elements are the
    entries' objects in key order (or [null] without entries).  So two
    caches that hold the same entries give the same output whatever
    order their maps are ranged over, and hence whatever order the
    entries were inserted in. *)
Theorem JSON_sorted_by_key (c1 c2 : Cache) (iter1 iter2 : list string) :
  (∀ k, Entries c1 !! k = Entries c2 !! k) →
  range_order c1 iter1 → range_order c2 iter2 →
  to_JSON c1 iter1 = to_JSON c2 iter2
  ∧ ∃ keys es,
      StronglySorted string_lt keys
      ∧ (∀ k, k ∈ keys ↔ is_Some (Entries c1 !! k))
      ∧ Forall2 (λ k e, Entries c1 !! k = Some e) keys es
      ∧ to_JSON c1 iter1
        = match marshal_indent es with
          | inl b => (b, None)
          | inr err => (EmptyString, Some err)
          end
      ∧ ∀ vs, Forall2 (λ e v, marshal_entry e = inl v) es vs →
              to_JSON c1 iter1
              = (match vs with
                 | [] => "null"
                 | _ :: _ => render 0 (json_array vs)
                 end, None).
Proof.
  intros Hsame H1 H2. split.
  - assert (Hperm : iter1 ≡ₚ iter2).
    { apply (range_order_Permutation c1 c2); try assumption.
      intros k. rewrite Hsame. reflexivity. }
    assert (Hc : c1 = c2).
    { destruct c1 as [ m1 ], c2 as [ m2 ]. f_equal. apply map_eq. exact Hsame. }
    unfold JSON, snapshot.
    rewrite (sort_Strings_order_irrelevant iter1 iter2 Hperm), Hc.
    reflexivity.
  - exists (sort_Strings iter1), (snapshot c1 iter1).
    split; [ | split; [ | split; [ | split ] ] ].
    + apply StronglySorted_strict; [ apply sort_Strings_sorted | ].
      rewrite sort_Strings_Permutation.
      exact (range_order_NoDup c1 iter1 H1).
    + intros k. rewrite sort_Strings_Permutation.
      apply range_order_elem_of. exact H1.
    + apply snapshot_lookup. exact H1.
    + reflexivity.
    + intros vs Hvs. unfold JSON, MarshalIndent.
      rewrite (marshal_all_Forall2 _ _ _ Hvs).
      destruct Hvs; reflexivity.
Qed.

End JSON_facts.

(** ** Lookup with renewal *)

Lemma After_true (t u : Time) : (u < t)%Z → After t u = true.
Proof. intros. apply Z.ltb_lt. assumption. Qed.

Lemma After_false (t u : Time) : (t ≤ u)%Z → After t u = false.
Proof. intros. apply Z.ltb_ge. assumption. Qed.

Lemma Before_true (t u : Time) : (t < u)%Z → Before t u = true.
Proof. intros. apply Z.ltb_lt. assumption. Qed.

Lemma Before_false (t u : Time) : (u ≤ t)%Z → Before t u = false.
Proof. intros. apply Z.ltb_ge. assumption. Qed.

Section Client_facts.

Context `{Krb5Types}.

Variable TGS :
  Client → types_PrincipalName → string → messages_Ticket →
  types_EncryptionKey → bool →
  (messages_Ticket * types_EncryptionKey * option error) * Client.

Ltac run :=
  unfold GetCachedTicket, renewTicket, within_window, exchange, exchange_at,
    renewal_call, bind, ret, cache_getEntry, getEntry, index_Entries,
    time_Now, Log, errors_New, advance, own_key in *;
  cbn [call_spn call_realm call_tkt call_sessionKey call_renewal] in *.

(** *** [renewTicket], outcome by outcome *)

(** The exchange fails: its error comes back with the entry as it was. *)
Lemma renewTicket_exchange_failed (cl cl1 : Client) (e : CacheEntry)
    (tkt : messages_Ticket) (k : types_EncryptionKey) (err : error) :
  exchange_at TGS cl (renewal_call e) = ((tkt, k, Some err), cl1) →
  renewTicket TGS e cl = ((e, Some err), cl1, [renewal_call e]).
Proof. run. intros ->. reflexivity. Qed.

(** The exchange succeeds and the cache holds an entry for the names. *)
Lemma renewTicket_refreshed (cl cl1 : Client) (e e' : CacheEntry)
    (tkt : messages_Ticket) (k : types_EncryptionKey) :
  exchange_at TGS cl (renewal_call e) = ((tkt, k, None), cl1) →
  Entries (cache cl1) !! own_key e = Some e' →
  result_of (renewTicket TGS e cl) = (e', None)
  ∧ calls_of (renewTicket TGS e cl) = [renewal_call e]
  ∧ cache (client_of (renewTicket TGS e cl)) = cache cl1.
Proof. run. intros -> ->. auto. Qed.

(** The exchange succeeds and the cache holds no entry for the names. *)
Lemma renewTicket_missing (cl cl1 : Client) (e : CacheEntry)
    (tkt : messages_Ticket) (k : types_EncryptionKey) :
  exchange_at TGS cl (renewal_call e) = ((tkt, k, None), cl1) →
  Entries (cache cl1) !! own_key e = None →
  result_of (renewTicket TGS e cl)
  = (zero_CacheEntry,
     Some (errorString (allocs cl1) "ticket was not added to cache"))
  ∧ calls_of (renewTicket TGS e cl) = [renewal_call e].
Proof. run. intros -> ->. auto. Qed.

(** Whatever the outcome, the exchange is called once. *)
Lemma renewTicket_calls (cl : Client) (e : CacheEntry) :
  calls_of (renewTicket TGS e cl) = [renewal_call e].
Proof.
  run. destruct (TGS cl _ _ _ _ _) as [ [ [ tkt k ] [ err | ] ] cl1 ];
    [ reflexivity | ].
  destruct (Entries (cache cl1) !! _); reflexivity.
Qed.

(** *** [GetCachedTicket], branch by branch *)

Lemma GetCachedTicket_absent (cl : Client) (cname spn : string) :
  Entries (cache cl) !! key cname spn = None →
  GetCachedTicket TGS cname spn cl
  = ((zero_Ticket, zero_EncryptionKey, false), cl, []).
Proof. run. intros ->. reflexivity. Qed.

(** The entry is inside its window at the two readings of the window
    test. *)
Lemma GetCachedTicket_direct (cl : Client) (cname spn : string)
    (e : CacheEntry) :
  Entries (cache cl) !! key cname spn = Some e →
  (StartTime e < reading cl 0)%Z →
  (reading cl 1 < EndTime e)%Z →
  result_of (GetCachedTicket TGS cname spn cl)
  = (Ticket e, SessionKey e, true)
  ∧ calls_of (GetCachedTicket TGS cname spn cl) = []
  ∧ cache (client_of (GetCachedTicket TGS cname spn cl)) = cache cl.
Proof.
  unfold reading. run. intros -> Hs He. cbn.
  rewrite After_true by exact Hs. cbn.
  rewrite Before_true by exact He. auto.
Qed.

(** The window test fails and the reading that follows it is before
    [RenewTill]: the second reading if the first comparison failed, the
    third otherwise. *)
Lemma GetCachedTicket_to_renewal (cl : Client) (cname spn : string)
    (e : CacheEntry) :
  Entries (cache cl) !! key cname spn = Some e →
  ((reading cl 0 ≤ StartTime e)%Z ∧ (reading cl 1 < RenewTill e)%Z)
  ∨ ((StartTime e < reading cl 0)%Z ∧ (EndTime e ≤ reading cl 1)%Z
     ∧ (reading cl 2 < RenewTill e)%Z) →
  GetCachedTicket TGS cname spn cl
  = after_renewal
      (renewTicket TGS e
         (advance (readings_before_renewal e (reading cl 0)) cl)).
Proof.
  unfold reading, readings_before_renewal.
  intros Hlook [ [ Hs Hrenew ] | (Hs & He & Hrenew) ].
  - rewrite After_false by exact Hs.
    unfold GetCachedTicket, within_window, bind, ret, cache_getEntry,
      getEntry, index_Entries, time_Now, advance.
    rewrite Hlook. cbn.
    rewrite After_false by exact Hs. cbn.
    rewrite Before_true by exact Hrenew.
    destruct (renewTicket TGS e _) as [ [ [ e' [ err | ] ] cl' ] calls ];
      cbn; rewrite app_nil_r; reflexivity.
  - rewrite After_true by exact Hs.
    unfold GetCachedTicket, within_window, bind, ret, cache_getEntry,
      getEntry, index_Entries, time_Now, advance.
    rewrite Hlook. cbn.
    rewrite After_true by exact Hs. cbn.
    rewrite Before_false by exact He. cbn.
    rewrite Before_true by exact Hrenew.
    destruct (renewTicket TGS e _) as [ [ [ e' [ err | ] ] cl' ] calls ];
      cbn; rewrite app_nil_r; reflexivity.
Qed.

(** The window test fails and the reading that follows it is not before
    [RenewTill]. *)
Lemma GetCachedTicket_past_renewal (cl : Client) (cname spn : string)
    (e : CacheEntry) :
  Entries (cache cl) !! key cname spn = Some e →
  ((reading cl 0 ≤ StartTime e)%Z ∧ (RenewTill e ≤ reading cl 1)%Z)
  ∨ ((StartTime e < reading cl 0)%Z ∧ (EndTime e ≤ reading cl 1)%Z
     ∧ (RenewTill e ≤ reading cl 2)%Z) →
  GetCachedTicket TGS cname spn cl
  = ((zero_Ticket, zero_EncryptionKey, false),
     advance (readings_before_renewal e (reading cl 0)) cl, []).
Proof.
  unfold reading, readings_before_renewal.
  intros Hlook [ [ Hs Hrenew ] | (Hs & He & Hrenew) ].
  - rewrite After_false by exact Hs. run. rewrite Hlook. cbn.
    rewrite After_false by exact Hs. cbn.
    rewrite Before_false by exact Hrenew. reflexivity.
  - rewrite After_true by exact Hs. run. rewrite Hlook. cbn.
    rewrite After_true by exact Hs. cbn.
    rewrite Before_false by exact He. cbn.
    rewrite Before_false by exact Hrenew. reflexivity.
Qed.

(** Three readings strictly between two bounds, the lower one not
    before [EndTime], send the entry to renewal. *)
Lemma readings_to_renewal (cl : Client) (e : CacheEntry) :
  ¬ ((StartTime e < reading cl 0)%Z ∧ (reading cl 1 < EndTime e)%Z) →
  (∀ i, (i < 3)%nat → (reading cl i < RenewTill e)%Z) →
  ((reading cl 0 ≤ StartTime e)%Z ∧ (reading cl 1 < RenewTill e)%Z)
  ∨ ((StartTime e < reading cl 0)%Z ∧ (EndTime e ≤ reading cl 1)%Z
     ∧ (reading cl 2 < RenewTill e)%Z).
Proof.
  intros Hout Hrenew.
  pose proof (Hrenew 1%nat ltac:(lia)). pose proof (Hrenew 2%nat ltac:(lia)).
  destruct (Z.lt_ge_cases (StartTime e) (reading cl 0)); [ right | left ];
    lia.
Qed.

(** An entry found under the key of two names bears these names, in a
    cache where every entry sits under its own key. *)
Lemma cache_wf_own_key (c : Cache) (cname spn : string) (e : CacheEntry) :
  cache_wf c → Entries c !! key cname spn = Some e →
  own_key e = key cname spn.
Proof. intros Hwf Hlook. symmetry. apply Hwf. exact Hlook. Qed.

(** The calls of a renewal seen through [after_renewal]. *)
Lemma after_renewal_calls (cl : Client) (e : CacheEntry) :
  calls_of (after_renewal (renewTicket TGS e cl)) = [renewal_call e].
Proof.
  pose proof (renewTicket_calls cl e) as Hcalls.
  destruct (renewTicket TGS e cl) as [ [ [ e1 err ] cl' ] calls ].
  exact Hcalls.
Qed.

(** The result of a renewal seen through [after_renewal], for each
    outcome of the exchange and of the lookup that follows it. *)
Lemma after_renewal_result (cl cl1 : Client) (e : CacheEntry)
    (tkt : messages_Ticket) (k : types_EncryptionKey) (err : option error) :
  exchange_at TGS cl (renewal_call e) = ((tkt, k, err), cl1) →
  result_of (after_renewal (renewTicket TGS e cl))
  = match err, Entries (cache cl1) !! own_key e with
    | Some _, _ => (Ticket e, SessionKey e, false)
    | None, Some e' => (Ticket e', SessionKey e', true)
    | None, None => (zero_Ticket, zero_EncryptionKey, false)
    end.
Proof.
  intros Hex. destruct err as [ err | ].
  - rewrite (renewTicket_exchange_failed _ _ _ _ _ _ Hex). reflexivity.
  - destruct (Entries (cache cl1) !! own_key e) as [ e' | ] eqn:Hnew.
    + destruct (renewTicket_refreshed _ _ _ _ _ _ Hex Hnew) as (Hres & _).
      destruct (renewTicket TGS e cl) as [ [ [ e1 err ] cl' ] calls ].
      cbn in Hres. injection Hres as -> ->. reflexivity.
    + destruct (renewTicket_missing _ _ _ _ _ Hex Hnew) as (Hres & _).
      destruct (renewTicket TGS e cl) as [ [ [ e1 err ] cl' ] calls ].
      cbn in Hres. injection Hres as -> ->. reflexivity.
Qed.

(** C2. Within the validity window the cached ticket is returned as it
    is: when the time read for the comparison with [StartTime] is
    strictly after it and the time read for the comparison with
    [EndTime] is strictly before it (in particular when both readings
    are one [now] inside the window), [GetCachedTicket] returns the
    entry's ticket and session key with [true] and calls the exchange
    not at all. *)
Theorem valid_ticket_returned_directly (cl : Client) (cname spn : string)
    (e : CacheEntry) :
  Entries (cache cl) !! key cname spn = Some e →
  (StartTime e < reading cl 0)%Z →
  (reading cl 1 < EndTime e)%Z →
  result_of (GetCachedTicket TGS cname spn cl)
  = (Ticket e, SessionKey e, true)
  ∧ calls_of (GetCachedTicket TGS cname spn cl) = [].
Proof.
  intros Hlook Hs He.
  destruct (GetCachedTicket_direct cl cname spn e Hlook Hs He)
    as (Hres & Hcalls & _).
  auto.
Qed.

(** C1. An expired but renewable ticket is renewed: when every time the
    call reads (at most three) lies strictly between [EndTime] and
    [RenewTill], [GetCachedTicket] makes exactly one call to the
    exchange, the renewal of the cached ticket; and when that call
    reports success and leaves an entry for the same two names in the
    cache, the ticket and session key of that entry are returned with
    [true]. *)
Theorem expired_ticket_renewed (cl : Client) (cname spn : string)
    (e : CacheEntry) :
  cache_wf (cache cl) →
  Entries (cache cl) !! key cname spn = Some e →
  (∀ i, (i < 3)%nat → (EndTime e < reading cl i < RenewTill e)%Z) →
  calls_of (GetCachedTicket TGS cname spn cl) = [renewal_call e]
  ∧ ∀ tkt k cl1 e',
      exchange_at TGS
        (advance (readings_before_renewal e (reading cl 0)) cl)
        (renewal_call e) = ((tkt, k, None), cl1) →
      Entries (cache cl1) !! key cname spn = Some e' →
      result_of (GetCachedTicket TGS cname spn cl)
      = (Ticket e', SessionKey e', true).
Proof.
  intros Hwf Hlook Hnow.
  rewrite (GetCachedTicket_to_renewal cl cname spn e Hlook).
  - split; [ apply after_renewal_calls | ].
    intros tkt k cl1 e' Hex Hnew.
    rewrite (after_renewal_result _ _ _ _ _ _ Hex).
    rewrite (cache_wf_own_key _ _ _ _ Hwf Hlook), Hnew. reflexivity.
  - apply readings_to_renewal.
    + pose proof (Hnow 1%nat ltac:(lia)). lia.
    + intros i Hi. apply Hnow. exact Hi.
Qed.

(** C3. A failed renewal hands back the stale ticket: when the window
    test fails on the two times it reads (the first is not after
    [StartTime], or the second is not before [EndTime]) and every time
    the call reads is strictly before [RenewTill], and the exchange
    returns an error, [GetCachedTicket] returns the ticket and session
    key of the cached entry, not zero values, with [false]. *)
Theorem failed_renewal_returns_stale_ticket (cl : Client)
    (cname spn : string) (e : CacheEntry)
    (tkt : messages_Ticket) (k : types_EncryptionKey) (err : error)
    (cl1 : Client) :
  Entries (cache cl) !! key cname spn = Some e →
  ¬ ((StartTime e < reading cl 0)%Z ∧ (reading cl 1 < EndTime e)%Z) →
  (∀ i, (i < 3)%nat → (reading cl i < RenewTill e)%Z) →
  exchange_at TGS (advance (readings_before_renewal e (reading cl 0)) cl)
    (renewal_call e) = ((tkt, k, Some err), cl1) →
  result_of (GetCachedTicket TGS cname spn cl)
  = (Ticket e, SessionKey e, false).
Proof.
  intros Hlook Hout Hrenew Hex.
  rewrite (GetCachedTicket_to_renewal cl cname spn e Hlook)
    by (apply readings_to_renewal; assumption).
  rewrite (after_renewal_result _ _ _ _ _ _ Hex). reflexivity.
Qed.

(** C5. Past [RenewTill] nothing is returned: for an entry with
    [StartTime ≤ EndTime ≤ RenewTill], when no time the call reads is
    before [RenewTill], and likewise, whatever the clock reads, when the
    cache holds no entry for the two names, [GetCachedTicket] returns
    the zero ticket and the zero session key with [false], and calls the
    exchange not at all. *)
Theorem exhausted_or_absent_returns_nothing (cl : Client)
    (cname spn : string) :
  Entries (cache cl) !! key cname spn = None
  ∨ (∃ e, Entries (cache cl) !! key cname spn = Some e
          ∧ (StartTime e ≤ EndTime e ≤ RenewTill e)%Z
          ∧ ∀ i, (i < 3)%nat → (RenewTill e ≤ reading cl i)%Z) →
  result_of (GetCachedTicket TGS cname spn cl)
  = (zero_Ticket, zero_EncryptionKey, false)
  ∧ calls_of (GetCachedTicket TGS cname spn cl) = [].
Proof.
  intros [ Habsent | (e & Hlook & Hinv & Hnow) ].
  - rewrite (GetCachedTicket_absent cl cname spn Habsent). auto.
  - rewrite (GetCachedTicket_past_renewal cl cname spn e Hlook); [ auto | ].
    pose proof (Hnow 1%nat ltac:(lia)). pose proof (Hnow 2%nat ltac:(lia)).
    destruct (Z.lt_ge_cases (StartTime e) (reading cl 0)); [ right | left ];
      lia.
Qed.

(** C9, as the code has it. The validity window is open at both ends.
    When the time read for the comparison with [StartTime] is strictly
    after it and the time read for the comparison with [EndTime] is
    strictly before it, the cached ticket is returned directly.  When
    the time read for the comparison with [StartTime] is [StartTime]
    itself, it is not: if the next time read is before [RenewTill] the
    exchange is called once, for a renewal, and the outcome of the
    renewal decides the result; otherwise zero values are returned with
    [false] and no call is made. *)
Theorem window_excludes_its_start (cl : Client) (cname spn : string)
    (e : CacheEntry) :
  Entries (cache cl) !! key cname spn = Some e →
  ((StartTime e < reading cl 0)%Z → (reading cl 1 < EndTime e)%Z →
   result_of (GetCachedTicket TGS cname spn cl)
   = (Ticket e, SessionKey e, true)
   ∧ calls_of (GetCachedTicket TGS cname spn cl) = [])
  ∧ (reading cl 0 = StartTime e → (reading cl 1 < RenewTill e)%Z →
     calls_of (GetCachedTicket TGS cname spn cl) = [renewal_call e]
     ∧ GetCachedTicket TGS cname spn cl
       = after_renewal (renewTicket TGS e (advance 2 cl)))
  ∧ (reading cl 0 = StartTime e → (RenewTill e ≤ reading cl 1)%Z →
     result_of (GetCachedTicket TGS cname spn cl)
     = (zero_Ticket, zero_EncryptionKey, false)
     ∧ calls_of (GetCachedTicket TGS cname spn cl) = []).
Proof.
  intros Hlook. split; [ | split ].
  - intros Hs He.
    destruct (GetCachedTicket_direct cl cname spn e Hlook Hs He)
      as (Hres & Hcalls & _).
    auto.
  - intros Hstart Hrenew.
    rewrite (GetCachedTicket_to_renewal cl cname spn e Hlook)
      by (left; lia).
    split; [ apply after_renewal_calls | ].
    unfold readings_before_renewal. rewrite After_false by lia.
    reflexivity.
  - intros Hstart Hrenew.
    rewrite (GetCachedTicket_past_renewal cl cname spn e Hlook)
      by (left; lia).
    auto.
Qed.

(** C10. A ticket that is not valid yet is treated as one to renew: when
    the time read for the comparison with [StartTime] is not after it
    and the next time read is strictly before [RenewTill],
    [GetCachedTicket] neither returns the cached ticket directly nor
    reports absence: it calls the exchange once, for the renewal of the
    cached ticket, and does with the outcome what it does for an expired
    ticket: the stale ticket with [false] if the exchange fails, the
    re-read entry with [true] if it succeeds and the entry is found,
    zero values with [false] if it succeeds and the entry is missing. *)
Theorem early_ticket_goes_to_renewal (cl : Client) (cname spn : string)
    (e : CacheEntry) :
  Entries (cache cl) !! key cname spn = Some e →
  (reading cl 0 ≤ StartTime e)%Z →
  (reading cl 1 < RenewTill e)%Z →
  calls_of (GetCachedTicket TGS cname spn cl) = [renewal_call e]
  ∧ GetCachedTicket TGS cname spn cl
    = after_renewal (renewTicket TGS e (advance 2 cl))
  ∧ ∀ tkt k err cl1,
      exchange_at TGS (advance 2 cl) (renewal_call e)
      = ((tkt, k, err), cl1) →
      result_of (GetCachedTicket TGS cname spn cl)
      = match err, Entries (cache cl1) !! own_key e with
        | Some _, _ => (Ticket e, SessionKey e, false)
        | None, Some e' => (Ticket e', SessionKey e', true)
        | None, None => (zero_Ticket, zero_EncryptionKey, false)
        end.
Proof.
  intros Hlook Hearly Hrenew.
  rewrite (GetCachedTicket_to_renewal cl cname spn e Hlook)
    by (left; lia).
  unfold readings_before_renewal. rewrite After_false by lia.
  split; [ apply after_renewal_calls | ].
  split; [ reflexivity | ].
  intros tkt k err cl1 Hex. apply (after_renewal_result _ _ _ _ _ _ Hex).
Qed.


End Client_facts.

(** ** The theorems at work on the concrete setting *)

Module demo_runs.

Import demo.

#[local] Existing Instance demo.types.

Lemma one_entry_lookup (now : Time) :
  Entries (cache (client_at now)) !! key "alice" "HTTP/server" = Some stale.
Proof. vm_compute. reflexivity. Qed.

Lemma one_entry_wf (payload sessionKey : string) :
  cache_wf (one_entry payload sessionKey).
Proof. apply cache_wf_addEntry, cache_wf_NewCache. Qed.

Lemma valid_ticket_returned_directly_witness :
  result_of (GetCachedTicket refusing "alice" "HTTP/server"
               (demo_store.client_moving 12 1))
  = (http_ticket "old", "k-old", true)
  ∧ calls_of (GetCachedTicket refusing "alice" "HTTP/server"
                (demo_store.client_moving 12 1))
    = [].
Proof.
  apply (valid_ticket_returned_directly refusing
           (demo_store.client_moving 12 1) "alice" "HTTP/server" stale).
  - vm_compute. reflexivity.
  - vm_compute. reflexivity.
  - vm_compute. reflexivity.
Defined.

Lemma expired_ticket_renewed_witness :
  calls_of (GetCachedTicket renewing "alice" "HTTP/server"
              (demo_store.client_moving 22 1))
  = [renewal_call stale]
  ∧ result_of (GetCachedTicket renewing "alice" "HTTP/server"
                 (demo_store.client_moving 22 1))
    = (Ticket fresh, SessionKey fresh, true).
Proof.
  destruct (expired_ticket_renewed renewing (demo_store.client_moving 22 1)
              "alice" "HTTP/server" stale) as [ Hcalls Hresult ].
  - apply one_entry_wf.
  - vm_compute. reflexivity.
  - intros i Hi. destruct i as [ | [ | [ | i ] ] ];
      [ vm_compute; split; reflexivity .. | lia ].
  - split; [ exact Hcalls | ].
    eapply (Hresult _ _ _ fresh); vm_compute; reflexivity.
Defined.

Lemma failed_renewal_returns_stale_ticket_witness :
  result_of (GetCachedTicket refusing "alice" "HTTP/server"
               (demo_store.client_moving 22 1))
  = (http_ticket "old", "k-old", false).
Proof.
  eapply (failed_renewal_returns_stale_ticket refusing
            (demo_store.client_moving 22 1) "alice" "HTTP/server" stale).
  - vm_compute. reflexivity.
  - vm_compute. intros [ _ Hlt ]. discriminate Hlt.
  - intros i Hi. destruct i as [ | [ | [ | i ] ] ];
      [ vm_compute; reflexivity .. | lia ].
  - vm_compute. reflexivity.
Defined.

Lemma exhausted_or_absent_returns_nothing_witness :
  result_of (GetCachedTicket renewing "alice" "HTTP/server"
               (demo_store.client_moving 30 1))
  = (zero_Ticket, zero_EncryptionKey, false)
  ∧ calls_of (GetCachedTicket renewing "alice" "HTTP/server"
                (demo_store.client_moving 30 1))
    = [].
Proof.
  apply (exhausted_or_absent_returns_nothing renewing
           (demo_store.client_moving 30 1) "alice" "HTTP/server").
  right. exists stale. split; [ vm_compute; reflexivity | ].
  split; [ vm_compute; repeat split; discriminate | ].
  intros i Hi. destruct i as [ | [ | [ | i ] ] ];
    [ vm_compute; discriminate .. | lia ].
Defined.

(** C9 fails at the start of the window: with the clock at [StartTime],
    before [EndTime], the cached ticket is not returned with [true] and
    the exchange is called. *)
Lemma start_of_window_counterexample :
  Entries (cache (client_at 10)) !! key "alice" "HTTP/server" = Some stale
  ∧ (∀ i, clock (client_at 10) i = StartTime stale)
  ∧ (StartTime stale < EndTime stale)%Z
  ∧ result_of (GetCachedTicket refusing "alice" "HTTP/server" (client_at 10))
    = (Ticket stale, SessionKey stale, false)
  ∧ calls_of (GetCachedTicket refusing "alice" "HTTP/server" (client_at 10))
    = [renewal_call stale]
  ∧ ¬ (result_of
         (GetCachedTicket refusing "alice" "HTTP/server" (client_at 10))
       = (Ticket stale, SessionKey stale, true)
       ∧ calls_of
           (GetCachedTicket refusing "alice" "HTTP/server" (client_at 10))
         = []).
Proof.
  split; [ vm_compute; reflexivity | ].
  split; [ intros i; reflexivity | ].
  split; [ vm_compute; reflexivity | ].
  split; [ vm_compute; reflexivity | ].
  split; [ vm_compute; reflexivity | ].
  intros [ _ Hcalls ]. vm_compute in Hcalls. discriminate Hcalls.
Qed.

Lemma window_excludes_its_start_witness :
  calls_of (GetCachedTicket refusing "alice" "HTTP/server"
              (demo_store.client_moving 10 5))
  = [renewal_call stale]
  ∧ GetCachedTicket refusing "alice" "HTTP/server"
      (demo_store.client_moving 10 5)
    = after_renewal
        (renewTicket refusing stale
           (advance 2 (demo_store.client_moving 10 5))).
Proof.
  destruct (window_excludes_its_start refusing
              (demo_store.client_moving 10 5) "alice" "HTTP/server" stale)
    as (_ & Hstart & _).
  - vm_compute. reflexivity.
  - apply Hstart; vm_compute; reflexivity.
Defined.

Lemma early_ticket_goes_to_renewal_witness :
  calls_of (GetCachedTicket renewing "alice" "HTTP/server"
              (demo_store.client_moving 8 3))
  = [renewal_call stale]
  ∧ result_of (GetCachedTicket renewing "alice" "HTTP/server"
                 (demo_store.client_moving 8 3))
    = (http_ticket "new", "k-new", true).
Proof.
  destruct (early_ticket_goes_to_renewal renewing
              (demo_store.client_moving 8 3) "alice" "HTTP/server" stale)
    as (Hcalls & _ & Hresult).
  - vm_compute. reflexivity.
  - vm_compute. discriminate.
  - vm_compute. reflexivity.
  - split; [ exact Hcalls | ].
    erewrite Hresult by (vm_compute; reflexivity).
    vm_compute. reflexivity.
Defined.


Lemma two_entries_range_order (payload sessionKey : string) :
  range_order (alice_then_bob payload sessionKey) [bob_key; alice_key]
  ∧ range_order (bob_then_alice payload sessionKey) [alice_key; bob_key].
Proof.
  unfold range_order. split; apply (bool_decide_unpack _); vm_compute;
    exact I.
Qed.

Lemma two_entries_same (payload sessionKey : string) :
  alice_then_bob payload sessionKey = bob_then_alice payload sessionKey.
Proof.
  vm_compute. reflexivity.
Qed.

Lemma JSON_redacts_secrets_witness :
  JSON quote marshal_PrincipalName Time_MarshalJSON
    (alice_then_bob "old" "k-old") [bob_key; alice_key]
  = JSON quote marshal_PrincipalName Time_MarshalJSON
      (bob_then_alice "new" "k-new") [alice_key; bob_key].
Proof.
  apply (JSON_redacts_secrets quote marshal_PrincipalName Time_MarshalJSON).
  - intros k. rewrite <- (two_entries_same "new" "k-new").
    unfold alice_then_bob, one_entry, addEntry. cbn.
    rewrite !lookup_insert. repeat case_decide;
      rewrite ?lookup_empty; constructor; repeat split.
  - apply two_entries_range_order.
  - apply two_entries_range_order.
Defined.

Lemma JSON_sorted_by_key_witness :
  JSON quote marshal_PrincipalName Time_MarshalJSON
    (alice_then_bob "old" "k-old") [bob_key; alice_key]
  = JSON quote marshal_PrincipalName Time_MarshalJSON
      (bob_then_alice "old" "k-old") [alice_key; bob_key]
  ∧ ∃ keys es,
      StronglySorted string_lt keys
      ∧ (∀ k, k ∈ keys
              ↔ is_Some (Entries (alice_then_bob "old" "k-old") !! k))
      ∧ Forall2 (λ k e, Entries (alice_then_bob "old" "k-old") !! k = Some e)
          keys es
      ∧ JSON quote marshal_PrincipalName Time_MarshalJSON
          (alice_then_bob "old" "k-old") [bob_key; alice_key]
        = match MarshalIndent quote marshal_PrincipalName Time_MarshalJSON es
          with
          | inl b => (b, None)
          | inr err => (EmptyString, Some err)
          end
      ∧ ∀ vs,
          Forall2
            (λ e v,
               marshal_CacheEntry quote marshal_PrincipalName
                 Time_MarshalJSON e = inl v) es vs →
          JSON quote marshal_PrincipalName Time_MarshalJSON
            (alice_then_bob "old" "k-old") [bob_key; alice_key]
          = (match vs with
             | [] => "null"
             | _ :: _ => render 0 (json_array vs)
             end, None).
Proof.
  apply (JSON_sorted_by_key quote marshal_PrincipalName Time_MarshalJSON
           (alice_then_bob "old" "k-old") (bob_then_alice "old" "k-old")
           [bob_key; alice_key] [alice_key; bob_key]).
  - intros k. rewrite (two_entries_same "old" "k-old"). reflexivity.
  - apply two_entries_range_order.
  - apply two_entries_range_order.
Defined.

(** The export of an empty cache is [null]: the slice is never
    appended to. *)
Example JSON_empty :
  JSON quote marshal_PrincipalName Time_MarshalJSON NewCache []
  = ("null", None).
Proof. reflexivity. Qed.

(** Alice sorts before bob whatever the order of the range. *)
Example snapshot_two_entries :
  map SPN (snapshot (alice_then_bob "old" "k-old") [bob_key; alice_key])
  = ["HTTP/server"; "HTTP/server"]
  ∧ map CName (snapshot (alice_then_bob "old" "k-old") [bob_key; alice_key])
    = [alice; bob].
Proof. split; vm_compute; reflexivity. Qed.

End demo_runs.

(** * Further properties of the store, the export and the lookup *)

(** ** Keys *)

Lemma cut_at_colon_app (a b : string) :
  ¬ occurs ":" a → cut_at_colon (a ++ String ":" b) = Some (a, b).
Proof.
  induction a as [ | c a IH ]; intros Hno; simpl in *.
  - reflexivity.
  - destruct (Ascii.eqb_spec c ":") as [ -> | Hc ]; [ tauto | ].
    rewrite IH by tauto. reflexivity.
Qed.

(** X1. A key of the map is readable: cutting it at its first colon and
    decoding both halves gives back the two names it was built from, so
    the names of every entry can be recovered from the keys of
    [Entries]. *)
Theorem unkey_key (cname spn : string) :
  unkey (key cname spn) = Some (cname, spn).
Proof.
  unfold unkey, key.
  change (":" ++ base64.EncodeToString spn)%string
    with (String ":" (base64.EncodeToString spn)).
  rewrite cut_at_colon_app by apply base64_facts.EncodeToString_no_colon.
  rewrite !base64_facts.DecodeString_EncodeToString. reflexivity.
Qed.

(** ** The store *)

Section Store_facts.

Context `{Krb5Types}.

(** X2. What [addEntry] stores is found again: a lookup for the names
    of the client and of the ticket's service returns, with [true], the
    entry that [addEntry] returned, and that entry holds the arguments of
    the call, with [SPN] the printed service name of the ticket. *)
Theorem addEntry_then_getEntry (c : Cache) (cname : types_PrincipalName)
    (tkt : messages_Ticket) (authTime startTime endTime renewTill : Time)
    (sessionKey : types_EncryptionKey) :
  let r := addEntry c cname tkt authTime startTime endTime renewTill
             sessionKey in
  getEntry (fst r) (PrincipalNameString cname)
    (PrincipalNameString (SName tkt)) = (snd r, true)
  ∧ snd r = {| CName := cname; SPN := PrincipalNameString (SName tkt);
               Ticket := tkt; AuthTime := authTime;
               StartTime := startTime; EndTime := endTime;
               RenewTill := renewTill; SessionKey := sessionKey |}.
Proof.
  unfold addEntry, getEntry, index_Entries. cbn.
  rewrite lookup_insert_eq. auto.
Qed.

(** X3. [addEntry] touches one pair of names only: a lookup for any
    other pair gives what it gave before, even when the names share
    prefixes or contain the separator. *)
Theorem addEntry_keeps_other_pairs (c : Cache)
    (cname : types_PrincipalName) (tkt : messages_Ticket)
    (authTime startTime endTime renewTill : Time)
    (sessionKey : types_EncryptionKey) (cname' spn' : string) :
  (cname', spn')
  ≠ (PrincipalNameString cname, PrincipalNameString (SName tkt)) →
  getEntry (fst (addEntry c cname tkt authTime startTime endTime renewTill
                   sessionKey)) cname' spn'
  = getEntry c cname' spn'.
Proof.
  intros Hne. unfold addEntry, getEntry, index_Entries. cbn.
  rewrite lookup_insert_ne; [ reflexivity | ].
  intros Heq. apply Hne. destruct (key_inj _ _ _ _ Heq) as [ -> -> ].
  reflexivity.
Qed.

(** X4. A second [addEntry] for the same client and the same printed
    service name replaces the first entry as a whole: the cache is the
    one the second call alone would have given, so no field of the first
    entry survives. *)
Theorem addEntry_replaces (c : Cache) (cname : types_PrincipalName)
    (tkt1 tkt2 : messages_Ticket) (a1 s1 e1 r1 a2 s2 e2 r2 : Time)
    (k1 k2 : types_EncryptionKey) :
  PrincipalNameString (SName tkt1) = PrincipalNameString (SName tkt2) →
  fst (addEntry (fst (addEntry c cname tkt1 a1 s1 e1 r1 k1))
         cname tkt2 a2 s2 e2 r2 k2)
  = fst (addEntry c cname tkt2 a2 s2 e2 r2 k2).
Proof.
  intros Hspn. unfold addEntry. cbn. rewrite Hspn, insert_insert_eq.
  reflexivity.
Qed.

Lemma addEntry_with_commute (c : Cache) (a b : AddArgs) :
  add_names a ≠ add_names b →
  addEntry_with (addEntry_with c a) b = addEntry_with (addEntry_with c b) a.
Proof.
  intros Hne. unfold addEntry_with, addEntry. cbn. f_equal.
  apply insert_insert_ne. intros Heq. apply Hne. unfold add_names.
  destruct (key_inj _ _ _ _ Heq) as [ -> -> ]. reflexivity.
Qed.

(** X5. The order of insertion does not matter: two sequences of
    [addEntry] calls that are permutations of each other, with no pair of
    names occurring twice, leave the same cache. *)
Theorem addEntries_order_irrelevant (c : Cache) (l1 l2 : list AddArgs) :
  l1 ≡ₚ l2 → NoDup (add_names <$> l1) → addEntries c l1 = addEntries c l2.
Proof.
  intros Hperm. revert c.
  induction Hperm as [ | a l1 l2 _ IH | a b l | l1 l2 l3 H12 IH12 H23 IH23 ];
    intros c Hnd.
  - reflexivity.
  - cbn in *. apply IH. apply NoDup_cons in Hnd. tauto.
  - cbn in *. f_equal. apply addEntry_with_commute.
    apply NoDup_cons in Hnd. destruct Hnd as [ Hnotin _ ].
    intros Heq. apply Hnotin. rewrite Heq. left.
  - rewrite IH12 by exact Hnd. apply IH23.
    rewrite <- H12. exact Hnd.
Qed.

(** X6. [RemoveEntry] removes the entry of one pair of names and no
    other: a lookup for that pair then fails with the zero entry, and a
    lookup for any other pair gives what it gave before. *)
Theorem RemoveEntry_removes_one_pair (c : Cache) (cname spn : string) :
  getEntry (RemoveEntry c cname spn) cname spn = (zero_CacheEntry, false)
  ∧ ∀ cname' spn',
      (cname', spn') ≠ (cname, spn) →
      getEntry (RemoveEntry c cname spn) cname' spn'
      = getEntry c cname' spn'.
Proof.
  unfold getEntry, index_Entries, RemoveEntry. cbn. split.
  - rewrite lookup_delete_eq. reflexivity.
  - intros cname' spn' Hne. rewrite lookup_delete_ne; [ reflexivity | ].
    intros Heq. apply Hne. destruct (key_inj _ _ _ _ Heq) as [ -> -> ].
    reflexivity.
Qed.

(** X7. [RemoveEntry] undoes [addEntry]: when the cache holds no entry
    for the names, adding one and removing it gives the cache back; in
    particular removing an absent pair changes nothing. *)
Theorem RemoveEntry_after_addEntry (c : Cache) (a : AddArgs) :
  snd (getEntry c (fst (add_names a)) (snd (add_names a))) = false →
  RemoveEntry (addEntry_with c a) (fst (add_names a)) (snd (add_names a))
  = c
  ∧ RemoveEntry c (fst (add_names a)) (snd (add_names a)) = c.
Proof.
  unfold getEntry, index_Entries, RemoveEntry, addEntry_with, addEntry,
    add_names. cbn.
  destruct (Entries c !! _) as [ e | ] eqn:Hlook; [ discriminate | ].
  intros _. destruct c as [ m ]. cbn in *. split; f_equal.
  - rewrite delete_insert_eq. apply delete_id. exact Hlook.
  - apply delete_id. exact Hlook.
Qed.

(** X8. [clear] forgets everything: whatever the order in which the map
    is ranged over, the cache is the empty one afterwards and every
    lookup fails with the zero entry. *)
Theorem clear_forgets_everything (c : Cache) (iter : list string)
    (cname spn : string) :
  range_order c iter →
  clear c iter = NewCache
  ∧ getEntry (clear c iter) cname spn = (zero_CacheEntry, false).
Proof.
  intros Hiter. rewrite (clear_empties c iter Hiter). split.
  - reflexivity.
  - unfold getEntry, index_Entries, NewCache. cbn.
    rewrite lookup_empty. reflexivity.
Qed.

(** X9. In every cache that [NewCache], [addEntry], [RemoveEntry] and
    [clear] build, each entry sits under the key of its printed client
    name and its [SPN] field, and that field is the printed service name
    of its ticket. *)
Theorem built_entries_under_own_key (c : Cache) (k : string)
    (e : CacheEntry) :
  built c → Entries c !! k = Some e →
  k = key (PrincipalNameString (CName e)) (SPN e)
  ∧ SPN e = PrincipalNameString (SName (Ticket e)).
Proof.
  intros Hbuilt. revert k e.
  induction Hbuilt as [ | c a _ IH | c cname spn _ IH | c iter _ _ Hiter ];
      intros k e.
  - cbn. rewrite lookup_empty. discriminate.
  - unfold addEntry_with, addEntry. cbn. rewrite lookup_insert.
    case_decide as Hk.
    + intros [= <-]. cbn. auto.
    + apply IH.
  - unfold RemoveEntry. cbn. rewrite lookup_delete.
    case_decide; [ discriminate | apply IH ].
  - rewrite (clear_empties c iter Hiter). cbn. rewrite lookup_empty.
    discriminate.
Qed.

End Store_facts.

(** ** The lookup, whatever the clock reads *)

Section Client_more.

Context `{Krb5Types}.

Variable TGS :
  Client → types_PrincipalName → string → messages_Ticket →
  types_EncryptionKey → bool →
  (messages_Ticket * types_EncryptionKey * option error) * Client.

(** The four ways through [GetCachedTicket]: no entry; an entry inside
    its window at the first two readings of the clock; an entry sent to
    renewal; an entry past renewal. *)
Lemma GetCachedTicket_cases (cl : Client) (cname spn : string) :
  (Entries (cache cl) !! key cname spn = None
   ∧ GetCachedTicket TGS cname spn cl
     = ((zero_Ticket, zero_EncryptionKey, false), cl, []))
  ∨ (∃ e, Entries (cache cl) !! key cname spn = Some e
          ∧ (StartTime e < clock cl (ticks cl))%Z
          ∧ (clock cl (S (ticks cl)) < EndTime e)%Z
          ∧ GetCachedTicket TGS cname spn cl
            = ((Ticket e, SessionKey e, true),
               {| cache := cache cl; clock := clock cl;
                  ticks := 2 + ticks cl;
                  log := (log cl
                          ++ [("ticket received from cache for %s",
                               [log_string spn])])%list;
                  allocs := allocs cl |}, []))
  ∨ (∃ e n, Entries (cache cl) !! key cname spn = Some e
            ∧ GetCachedTicket TGS cname spn cl
              = after_renewal (renewTicket TGS e (advance n cl)))
  ∨ (∃ e n, Entries (cache cl) !! key cname spn = Some e
            ∧ GetCachedTicket TGS cname spn cl
              = ((zero_Ticket, zero_EncryptionKey, false),
                 advance n cl, [])).
Proof.
  destruct (Entries (cache cl) !! key cname spn) as [ e | ] eqn:Hlook.
  2:{ left. split; [ reflexivity | ].
      apply GetCachedTicket_absent. exact Hlook. }
  right.
  unfold GetCachedTicket, within_window, bind, ret, cache_getEntry, getEntry,
    index_Entries, time_Now, Log, advance.
  rewrite Hlook. cbn.
  destruct (After (clock cl (ticks cl)) (StartTime e)) eqn:Hafter; cbn.
  - destruct (Before (clock cl (S (ticks cl))) (EndTime e)) eqn:Hbefore; cbn.
    + left. exists e. apply Z.ltb_lt in Hafter, Hbefore. auto.
    + right.
      destruct (Before (clock cl (S (S (ticks cl)))) (RenewTill e)); cbn.
      * left. exists e, 3. split; [ reflexivity | ].
        destruct (renewTicket TGS e _) as [ [ [ e' [ err | ] ] cl' ] calls ];
          cbn; rewrite app_nil_r; reflexivity.
      * right. exists e, 3. auto.
  - right.
    destruct (Before (clock cl (S (ticks cl))) (RenewTill e)); cbn.
    + left. exists e, 2. split; [ reflexivity | ].
      destruct (renewTicket TGS e _) as [ [ [ e' [ err | ] ] cl' ] calls ];
        cbn; rewrite app_nil_r; reflexivity.
    + right. exists e, 2. auto.
Qed.

(** The client that [renewTicket] leaves is the one the exchange left,
    up to one more log line or one more allocated error. *)
Lemma renewTicket_client (cl : Client) (e : CacheEntry) :
  let out := exchange_at TGS cl (renewal_call e) in
  let cl' := client_of (renewTicket TGS e cl) in
  cache cl' = cache (snd out) ∧ clock cl' = clock (snd out)
  ∧ ticks cl' = ticks (snd out).
Proof.
  unfold renewTicket, exchange, exchange_at, renewal_call, bind, ret,
    cache_getEntry, getEntry, index_Entries, Log, errors_New, client_of.
  cbn.
  destruct (TGS cl _ _ _ _ _) as [ [ [ tkt k ] [ err | ] ] cl1 ]; cbn;
    [ auto | ].
  destruct (Entries (cache cl1) !! _); cbn; auto.
Qed.

(** What [renewTicket] returns, for each outcome of the exchange. *)
Lemma renewTicket_result (cl : Client) (e : CacheEntry) :
  let out := exchange_at TGS cl (renewal_call e) in
  result_of (renewTicket TGS e cl)
  = match snd (fst out), Entries (cache (snd out)) !! own_key e with
    | Some err, _ => (e, Some err)
    | None, Some e' => (e', None)
    | None, None =>
        (zero_CacheEntry,
         Some (errorString (allocs (snd out))
                 "ticket was not added to cache"))
    end.
Proof.
  unfold renewTicket, exchange, exchange_at, renewal_call, bind, ret,
    cache_getEntry, getEntry, index_Entries, Log, errors_New, result_of,
    own_key.
  cbn.
  destruct (TGS cl _ _ _ _ _) as [ [ [ tkt k ] [ err | ] ] cl1 ]; cbn;
    [ reflexivity | ].
  destruct (Entries (cache cl1) !! _); reflexivity.
Qed.

Lemma after_renewal_parts (r : CacheEntry * option error * Client
                                * list ExchangeCall) :
  client_of (after_renewal r) = client_of r
  ∧ calls_of (after_renewal r) = calls_of r
  ∧ result_of (after_renewal r)
    = (Ticket (fst (result_of r)), SessionKey (fst (result_of r)),
       match snd (result_of r) with Some _ => false | None => true end).
Proof. destruct r as [ [ [ e err ] cl ] calls ]. cbn. auto. Qed.

(** X10. Whatever the clock reads, [GetCachedTicket] calls the exchange
    at most once, and a call it makes is the renewal (the renewal flag
    set) of the entry found in the cache, with that entry's service name,
    realm, ticket and session key. *)
Theorem GetCachedTicket_calls_at_most_once (cl : Client)
    (cname spn : string) :
  calls_of (GetCachedTicket TGS cname spn cl) = []
  ∨ ∃ e, Entries (cache cl) !! key cname spn = Some e
         ∧ calls_of (GetCachedTicket TGS cname spn cl) = [renewal_call e].
Proof.
  destruct (GetCachedTicket_cases cl cname spn)
    as [ [ _ -> ] | [ (e & _ & _ & _ & ->) | [ (e & n & Hlook & ->)
       | (e & n & _ & ->) ] ] ]; auto.
  right. exists e. split; [ exact Hlook | ].
  destruct (after_renewal_parts (renewTicket TGS e (advance n cl)))
    as (_ & -> & _).
  apply renewTicket_calls.
Qed.

(** X11. A ticket reported usable is one the cache holds when
    [GetCachedTicket] returns: if the flag is [true], the ticket and the
    session key returned are those of an entry of the final cache. *)
Theorem usable_ticket_is_cached (cl : Client) (cname spn : string)
    (tkt : messages_Ticket) (k : types_EncryptionKey) :
  result_of (GetCachedTicket TGS cname spn cl) = (tkt, k, true) →
  ∃ k' e',
    Entries (cache (client_of (GetCachedTicket TGS cname spn cl))) !! k'
    = Some e'
    ∧ Ticket e' = tkt ∧ SessionKey e' = k.
Proof.
  destruct (GetCachedTicket_cases cl cname spn)
    as [ [ _ -> ] | [ (e & Hlook & _ & _ & ->) | [ (e & n & Hlook & ->)
       | (e & n & _ & ->) ] ] ]; cbn; try discriminate.
  - intros [= <- <-]. exists (key cname spn), e. auto.
  - destruct (after_renewal_parts (renewTicket TGS e (advance n cl)))
      as (-> & _ & ->).
    destruct (renewTicket_client (advance n cl) e) as (-> & _).
    rewrite renewTicket_result.
    destruct (snd (fst (exchange_at TGS (advance n cl) (renewal_call e))));
      [ discriminate | ].
    destruct (Entries _ !! own_key e) as [ e' | ] eqn:Hnew;
      [ | discriminate ].
    cbn. intros [= <- <-]. exists (own_key e), e'. auto.
Qed.

(** X12. A ticket is handed out without a call to the exchange only
    inside its window: if [GetCachedTicket] returns [true] and has made
    no call, the ticket and key are those of the entry found, the first
    reading of the clock was after its [StartTime] and the second before
    its [EndTime]. *)
Theorem direct_return_only_inside_window (cl : Client)
    (cname spn : string) (tkt : messages_Ticket)
    (k : types_EncryptionKey) :
  result_of (GetCachedTicket TGS cname spn cl) = (tkt, k, true) →
  calls_of (GetCachedTicket TGS cname spn cl) = [] →
  ∃ e, Entries (cache cl) !! key cname spn = Some e
       ∧ tkt = Ticket e ∧ k = SessionKey e
       ∧ (StartTime e < clock cl (ticks cl))%Z
       ∧ (clock cl (S (ticks cl)) < EndTime e)%Z.
Proof.
  destruct (GetCachedTicket_cases cl cname spn)
    as [ [ _ -> ] | [ (e & Hlook & Hs & He & ->) | [ (e & n & Hlook & ->)
       | (e & n & _ & ->) ] ] ]; cbn; try discriminate.
  - intros [= <- <-] _. exists e. auto.
  - intros _ Hcalls.
    destruct (after_renewal_parts (renewTicket TGS e (advance n cl)))
      as (_ & Hc & _).
    rewrite Hc, renewTicket_calls in Hcalls. discriminate.
Qed.

(** X13. Without a call to the exchange nothing stale is returned: if
    [GetCachedTicket] returns [false] and has made no call, the ticket
    and the key are the zero values, and the cache is as it was. *)
Theorem unusable_without_call_is_zero (cl : Client) (cname spn : string) :
  snd (result_of (GetCachedTicket TGS cname spn cl)) = false →
  calls_of (GetCachedTicket TGS cname spn cl) = [] →
  result_of (GetCachedTicket TGS cname spn cl)
  = (zero_Ticket, zero_EncryptionKey, false)
  ∧ cache (client_of (GetCachedTicket TGS cname spn cl)) = cache cl.
Proof.
  destruct (GetCachedTicket_cases cl cname spn)
    as [ [ _ -> ] | [ (e & Hlook & Hs & He & ->) | [ (e & n & Hlook & ->)
       | (e & n & _ & ->) ] ] ]; cbn; try discriminate; auto.
  intros _ Hcalls.
  destruct (after_renewal_parts (renewTicket TGS e (advance n cl)))
    as (_ & Hc & _).
  rewrite Hc, renewTicket_calls in Hcalls. discriminate.
Qed.

(** X14. [renewTicket] returns an entry without an error exactly when
    the exchange reports success and the cache it leaves holds an entry
    under the key of the renewed entry's names; the entry returned is
    that one. *)
Theorem renewTicket_success_iff (cl : Client) (e e' : CacheEntry) :
  result_of (renewTicket TGS e cl) = (e', None)
  ↔ snd (fst (exchange_at TGS cl (renewal_call e))) = None
    ∧ Entries (cache (snd (exchange_at TGS cl (renewal_call e))))
        !! own_key e = Some e'.
Proof.
  rewrite renewTicket_result.
  destruct (snd (fst (exchange_at TGS cl (renewal_call e)))) as [ err | ].
  - split; [ discriminate | intros [ ? _ ]; discriminate ].
  - destruct (Entries _ !! own_key e) as [ e1 | ].
    + split; [ intros [= ->]; auto | intros [ _ [= ->] ]; reflexivity ].
    + split; [ discriminate | intros [ _ ? ]; discriminate ].
Qed.

(** X15. Neither function writes to the cache: after [GetCachedTicket]
    the cache is the one it started from, or, when the exchange was
    called, the one the exchange left. *)
Theorem GetCachedTicket_leaves_cache_to_exchange (cl : Client)
    (cname spn : string) :
  (calls_of (GetCachedTicket TGS cname spn cl) = []
   ∧ cache (client_of (GetCachedTicket TGS cname spn cl)) = cache cl)
  ∨ ∃ e n,
      Entries (cache cl) !! key cname spn = Some e
      ∧ calls_of (GetCachedTicket TGS cname spn cl) = [renewal_call e]
      ∧ cache (client_of (GetCachedTicket TGS cname spn cl))
        = cache (snd (exchange_at TGS (advance n cl) (renewal_call e))).
Proof.
  destruct (GetCachedTicket_cases cl cname spn)
    as [ [ _ -> ] | [ (e & Hlook & Hs & He & ->) | [ (e & n & Hlook & ->)
       | (e & n & _ & ->) ] ] ]; cbn; auto.
  right. exists e, n. split; [ exact Hlook | ].
  destruct (after_renewal_parts (renewTicket TGS e (advance n cl)))
    as (-> & -> & _).
  split; [ apply renewTicket_calls | apply renewTicket_client ].
Qed.

(** X16. A renewal that succeeded is not repeated: after a call that
    sent an expired ticket to renewal (every time it read lay strictly
    between [EndTime] and [RenewTill]), with the exchange reporting
    success and leaving in the cache an entry that is inside its window
    at the next two readings of the clock, the next [GetCachedTicket]
    for the same names returns that entry's ticket and key with [true]
    and makes no call. *)
Theorem renewed_ticket_served_from_cache (cl cl1 : Client)
    (cname spn : string) (e e' : CacheEntry)
    (tkt : messages_Ticket) (k : types_EncryptionKey) :
  Entries (cache cl) !! key cname spn = Some e →
  (∀ i, (i < 3)%nat → (EndTime e < reading cl i < RenewTill e)%Z) →
  exchange_at TGS (advance (readings_before_renewal e (reading cl 0)) cl)
    (renewal_call e) = ((tkt, k, None), cl1) →
  Entries (cache cl1) !! key cname spn = Some e' →
  (StartTime e' < reading cl1 0)%Z →
  (reading cl1 1 < EndTime e')%Z →
  let cl' := client_of (GetCachedTicket TGS cname spn cl) in
  result_of (GetCachedTicket TGS cname spn cl')
  = (Ticket e', SessionKey e', true)
  ∧ calls_of (GetCachedTicket TGS cname spn cl') = [].
Proof.
  intros Hlook Hnow Hex Hnew Hs' He' cl'.
  assert (Hcl' : cache cl' = cache cl1 ∧ clock cl' = clock cl1
                 ∧ ticks cl' = ticks cl1).
  { unfold cl'.
    rewrite (GetCachedTicket_to_renewal TGS cl cname spn e Hlook).
    - destruct (after_renewal_parts
                  (renewTicket TGS e
                     (advance (readings_before_renewal e (reading cl 0))
                        cl)))
        as (-> & _ & _).
      destruct (renewTicket_client
                  (advance (readings_before_renewal e (reading cl 0)) cl) e)
        as (-> & -> & ->).
      rewrite Hex. auto.
    - apply readings_to_renewal.
      + pose proof (Hnow 1%nat ltac:(lia)). lia.
      + intros i Hi. apply Hnow. exact Hi. }
  destruct Hcl' as (Hcache & Hclk & Hticks).
  destruct (GetCachedTicket_direct TGS cl' cname spn e')
    as (Hres & Hcalls & _).
  - rewrite Hcache. exact Hnew.
  - unfold reading in *. rewrite Hclk, Hticks. exact Hs'.
  - unfold reading in *. rewrite Hclk, Hticks. exact He'.
  - auto.
Qed.

End Client_more.

(** ** The export, entry by entry *)

Section JSON_more.

Context `{Krb5Types}.

Variable quote : string → string.
Variable marshal_PrincipalName : types_PrincipalName → json.
Variable Time_MarshalJSON : Time → string + error.

Local Abbreviation marshal_entry' :=
  (marshal_CacheEntry quote marshal_PrincipalName Time_MarshalJSON).
Local Abbreviation to_JSON' :=
  (JSON quote marshal_PrincipalName Time_MarshalJSON).

Lemma map_fmap {A B : Type} (f : A → B) (l : list A) : map f l = f <$> l.
Proof. induction l as [ | x l IH ]; cbn; [ | rewrite IH ]; reflexivity. Qed.

(** X17. The slice that [JSON] marshals holds every entry of the map
    exactly once and nothing else: it is a permutation of the values of
    [Entries]. *)
Theorem snapshot_lists_every_entry_once (c : Cache) (iter : list string) :
  range_order c iter →
  snapshot c iter ≡ₚ (map_to_list (Entries c)).*2.
Proof.
  intros Hiter. unfold snapshot. rewrite map_fmap.
  rewrite sort_Strings_Permutation. unfold range_order in Hiter.
  rewrite Hiter, <- list_fmap_compose.
  erewrite (Forall_fmap_ext_1 _ snd); [ reflexivity | ].
  apply Forall_forall. intros [ k e ] Hin.
  apply elem_of_map_to_list in Hin. cbn. unfold index_Entries.
  rewrite Hin. reflexivity.
Qed.

Lemma snapshot_elem_of (c : Cache) (iter : list string) (e : CacheEntry) :
  range_order c iter →
  e ∈ snapshot c iter ↔ ∃ k, Entries c !! k = Some e.
Proof.
  intros Hiter. rewrite (snapshot_lists_every_entry_once c iter Hiter).
  rewrite list_elem_of_fmap. split.
  - intros ([ k e' ] & -> & Hin). exists k.
    apply elem_of_map_to_list. exact Hin.
  - intros [ k Hk ]. exists (k, e). split; [ reflexivity | ].
    apply elem_of_map_to_list. exact Hk.
Qed.

Lemma marshal_entry_ok (e : CacheEntry) :
  (∃ v, marshal_entry' e = inl v) ↔ times_marshal Time_MarshalJSON e.
Proof.
  unfold marshal_CacheEntry, marshal_Time, times_marshal. split.
  - intros [ v Hv ] t Ht.
    destruct (Time_MarshalJSON (AuthTime e)) as [ t1 | ] eqn:E1;
      [ | discriminate ].
    destruct (Time_MarshalJSON (StartTime e)) as [ t2 | ] eqn:E2;
      [ | discriminate ].
    destruct (Time_MarshalJSON (EndTime e)) as [ t3 | ] eqn:E3;
      [ | discriminate ].
    destruct (Time_MarshalJSON (RenewTill e)) as [ t4 | ] eqn:E4;
      [ | discriminate ].
    repeat (apply elem_of_cons in Ht; destruct Ht as [ -> | Ht ]; eauto).
    apply elem_of_nil in Ht. destruct Ht.
  - intros Hall.
    destruct (Hall (AuthTime e)) as [ t1 -> ]; [ set_solver | ].
    destruct (Hall (StartTime e)) as [ t2 -> ]; [ set_solver | ].
    destruct (Hall (EndTime e)) as [ t3 -> ]; [ set_solver | ].
    destruct (Hall (RenewTill e)) as [ t4 -> ]; [ set_solver | ].
    eauto.
Qed.

Lemma marshal_all_ok {A : Type} (f : A → json + error) (l : list A) :
  (∃ vs, marshal_all f l = inl vs) ↔ Forall (λ x, ∃ v, f x = inl v) l.
Proof.
  induction l as [ | x l IH ]; cbn.
  - split; [ constructor | eauto ].
  - rewrite Forall_cons, <- IH.
    destruct (f x) as [ v | err ].
    + destruct (marshal_all f l) as [ vs | err ].
      * split; eauto.
      * split; [ intros [ ? ? ]; discriminate
               | intros [ _ [ ? ? ] ]; discriminate ].
    + split; [ intros [ ? ? ]; discriminate
             | intros [ [ ? ? ] _ ]; discriminate ].
Qed.

(** X18. [JSON] fails exactly when an instant of some entry cannot be
    marshalled: it returns no error if and only if, for every entry of
    the map, [AuthTime], [StartTime], [EndTime] and [RenewTill] all
    marshal; and when it returns an error the string is empty. *)
Theorem JSON_error_iff (c : Cache) (iter : list string) :
  range_order c iter →
  (snd (to_JSON' c iter) = None
   ↔ ∀ k e, Entries c !! k = Some e → times_marshal Time_MarshalJSON e)
  ∧ (snd (to_JSON' c iter) ≠ None → fst (to_JSON' c iter) = EmptyString).
Proof.
  intros Hiter.
  assert (Hok : (∃ vs, marshal_all marshal_entry' (snapshot c iter) = inl vs)
                ↔ ∀ k e, Entries c !! k = Some e →
                         times_marshal Time_MarshalJSON e).
  { rewrite marshal_all_ok, Forall_forall. split.
    - intros Hall k e Hlook. apply marshal_entry_ok, Hall.
      apply (snapshot_elem_of c iter e Hiter). eauto.
    - intros Hall e He. apply marshal_entry_ok.
      apply (snapshot_elem_of c iter e Hiter) in He. destruct He as [ k Hk ].
      eauto. }
  unfold JSON, MarshalIndent.
  destruct (snapshot c iter) as [ | e0 es ] eqn:Hsnap.
  - cbn. split; [ | congruence ]. split; [ | reflexivity ].
    intros _. apply Hok. cbn. eauto.
  - destruct (marshal_all marshal_entry' (e0 :: es)) as [ vs | err ]; cbn.
    + split; [ | congruence ]. split; [ | reflexivity ].
      intros _. apply Hok. eauto.
    + split; [ | reflexivity ]. split; [ discriminate | ].
      intros Hall. apply Hok in Hall. destruct Hall as [ ? ? ]. discriminate.
Qed.

(** X19. The export of a cache without entries is [null], not an empty
    array: the slice that is marshalled is declared without a value and
    nothing is appended to it. *)
Theorem JSON_of_empty_cache (c : Cache) (iter : list string) :
  Entries c = ∅ → range_order c iter → to_JSON' c iter = ("null", None).
Proof.
  unfold range_order. intros -> Hiter. rewrite map_to_list_empty in Hiter.
  apply Permutation_nil_r in Hiter. subst iter. reflexivity.
Qed.

End JSON_more.

(** ** The store and the lookup together *)

Section Compose.

Context `{Krb5Types}.

Variable TGS :
  Client → types_PrincipalName → string → messages_Ticket →
  types_EncryptionKey → bool →
  (messages_Ticket * types_EncryptionKey * option error) * Client.

(** X20. A ticket just stored is served from the cache: after
    [addEntry], when the time read for the comparison with the start of
    the window given to the entry is strictly after it and the time read
    for the comparison with its end is strictly before it,
    [GetCachedTicket] for the printed names of the client and of the
    ticket's service returns that ticket and that session key with
    [true], and makes no call. *)
Theorem stored_ticket_is_served (cl : Client) (c : Cache)
    (cname : types_PrincipalName) (tkt : messages_Ticket)
    (authTime startTime endTime renewTill : Time)
    (sessionKey : types_EncryptionKey) :
  cache cl = fst (addEntry c cname tkt authTime startTime endTime renewTill
                    sessionKey) →
  (startTime < reading cl 0)%Z →
  (reading cl 1 < endTime)%Z →
  result_of (GetCachedTicket TGS (PrincipalNameString cname)
               (PrincipalNameString (SName tkt)) cl)
  = (tkt, sessionKey, true)
  ∧ calls_of (GetCachedTicket TGS (PrincipalNameString cname)
                (PrincipalNameString (SName tkt)) cl) = [].
Proof.
  intros Hcache Hs He.
  destruct (GetCachedTicket_direct TGS cl (PrincipalNameString cname)
              (PrincipalNameString (SName tkt))
              (snd (addEntry c cname tkt authTime startTime endTime
                      renewTill sessionKey)))
    as (Hres & Hcalls & _).
  - rewrite Hcache. unfold addEntry, index_Entries. cbn.
    rewrite !lookup_insert_eq. reflexivity.
  - unfold addEntry, index_Entries. cbn. rewrite lookup_insert_eq. cbn.
    exact Hs.
  - unfold addEntry, index_Entries. cbn. rewrite lookup_insert_eq. cbn.
    exact He.
  - split; [ | exact Hcalls ]. rewrite Hres.
    unfold addEntry, index_Entries. cbn. rewrite lookup_insert_eq.
    reflexivity.
Qed.

(** X21. A removed ticket is no longer served, nor renewed: after
    [RemoveEntry], whatever the clock reads, [GetCachedTicket] for the
    same names returns zero values with [false], makes no call and
    leaves the client as it was. *)
Theorem removed_ticket_is_not_served (cl : Client) (c : Cache)
    (cname spn : string) :
  cache cl = RemoveEntry c cname spn →
  GetCachedTicket TGS cname spn cl
  = ((zero_Ticket, zero_EncryptionKey, false), cl, []).
Proof.
  intros Hcache. apply GetCachedTicket_absent. rewrite Hcache.
  unfold RemoveEntry. cbn. apply lookup_delete_eq.
Qed.

(** X22. When [renewTicket] returns an error, either it is the error of
    the exchange, returned with the entry as it was given, or the
    exchange reported success, the cache it left holds no entry under
    the key of the entry's names, and the error reads "ticket was not
    added to cache", returned with the zero entry. *)
Theorem renewTicket_failure_cases (cl : Client) (e e' : CacheEntry)
    (err : error) :
  result_of (renewTicket TGS e cl) = (e', Some err) →
  (snd (fst (exchange_at TGS cl (renewal_call e))) = Some err ∧ e' = e)
  ∨ (snd (fst (exchange_at TGS cl (renewal_call e))) = None
     ∧ Entries (cache (snd (exchange_at TGS cl (renewal_call e))))
         !! own_key e = None
     ∧ e' = zero_CacheEntry
     ∧ Error err = "ticket was not added to cache").
Proof.
  rewrite renewTicket_result.
  destruct (snd (fst (exchange_at TGS cl (renewal_call e)))) as [ err0 | ].
  - intros [= <- <-]. left. auto.
  - destruct (Entries _ !! own_key e) as [ e1 | ]; [ discriminate | ].
    intros [= <- <-]. right. auto.
Qed.

End Compose.

(** ** The further properties at work on the concrete setting *)

Module more_runs.

Import demo demo_store.

#[local] Existing Instance demo.types.

Lemma addEntry_keeps_other_pairs_witness :
  getEntry (alice_then_bob "old" "k-old") "alice" "HTTP/server"
  = getEntry (one_entry "old" "k-old") "alice" "HTTP/server".
Proof.
  apply (addEntry_keeps_other_pairs (one_entry "old" "k-old") bob
           (http_ticket "old") 6 11 21 31 "k-old" "alice" "HTTP/server").
  vm_compute. discriminate.
Defined.

Lemma addEntry_replaces_witness :
  fst (addEntry (one_entry "old" "k-old") alice (http_ticket "new")
         5 25 40 60 "k-new")
  = fst (addEntry NewCache alice (http_ticket "new") 5 25 40 60 "k-new").
Proof.
  apply (@addEntry_replaces demo.types NewCache alice (http_ticket "old")
           (http_ticket "new") 5 10 20 30 5 25 40 60 "k-old" "k-new").
  reflexivity.
Defined.

Lemma addEntries_order_irrelevant_witness :
  addEntries NewCache [add_alice; add_bob]
  = addEntries NewCache [add_bob; add_alice].
Proof.
  apply addEntries_order_irrelevant.
  - apply Permutation_swap.
  - apply (bool_decide_unpack _). vm_compute. exact I.
Defined.

Lemma RemoveEntry_removes_one_pair_witness :
  getEntry (RemoveEntry (alice_then_bob "old" "k-old") "bob" "HTTP/server")
    "alice" "HTTP/server"
  = getEntry (alice_then_bob "old" "k-old") "alice" "HTTP/server".
Proof.
  apply (RemoveEntry_removes_one_pair (alice_then_bob "old" "k-old")
           "bob" "HTTP/server").
  vm_compute. discriminate.
Defined.

Lemma RemoveEntry_after_addEntry_witness :
  RemoveEntry (addEntry_with NewCache add_alice) "alice" "HTTP/server"
  = NewCache.
Proof.
  apply (RemoveEntry_after_addEntry NewCache add_alice). reflexivity.
Defined.

Lemma clear_forgets_everything_witness :
  clear (alice_then_bob "old" "k-old") [bob_key; alice_key] = NewCache
  ∧ getEntry (clear (alice_then_bob "old" "k-old") [bob_key; alice_key])
      "alice" "HTTP/server" = (zero_CacheEntry, false).
Proof.
  apply clear_forgets_everything.
  unfold range_order. apply (bool_decide_unpack _). vm_compute. exact I.
Defined.

Lemma built_entries_under_own_key_witness :
  alice_key = key (PrincipalNameString (CName stale)) (SPN stale)
  ∧ SPN stale = PrincipalNameString (SName (Ticket stale)).
Proof.
  apply (built_entries_under_own_key
           (addEntry_with (addEntry_with NewCache add_alice) add_bob)
           alice_key stale).
  - apply built_addEntry, built_addEntry, built_NewCache.
  - vm_compute. reflexivity.
Defined.

Lemma usable_ticket_is_cached_witness :
  ∃ k' e',
    Entries (cache (client_of (GetCachedTicket renewing "alice"
                                 "HTTP/server" (client_at 25)))) !! k'
    = Some e'
    ∧ Ticket e' = http_ticket "new" ∧ SessionKey e' = "k-new".
Proof.
  apply (usable_ticket_is_cached renewing (client_at 25)
           "alice" "HTTP/server").
  vm_compute. reflexivity.
Defined.

Lemma direct_return_only_inside_window_witness :
  ∃ e, Entries (cache (client_at 15)) !! key "alice" "HTTP/server" = Some e
       ∧ http_ticket "old" = Ticket e ∧ "k-old" = SessionKey e
       ∧ (StartTime e < 15)%Z ∧ (15 < EndTime e)%Z.
Proof.
  apply (direct_return_only_inside_window refusing (client_at 15)
           "alice" "HTTP/server"); vm_compute; reflexivity.
Defined.

Lemma unusable_without_call_is_zero_witness :
  result_of (GetCachedTicket renewing "alice" "HTTP/server" (client_at 30))
  = (zero_Ticket, zero_EncryptionKey, false)
  ∧ cache (client_of (GetCachedTicket renewing "alice" "HTTP/server"
                        (client_at 30)))
    = cache (client_at 30).
Proof.
  apply (unusable_without_call_is_zero renewing (client_at 30)
           "alice" "HTTP/server"); vm_compute; reflexivity.
Defined.

Lemma renewed_ticket_served_from_cache_witness :
  result_of
    (GetCachedTicket renewing "alice" "HTTP/server"
       (client_of (GetCachedTicket renewing "alice" "HTTP/server"
                     (client_moving 22 2))))
  = (Ticket fresh, SessionKey fresh, true)
  ∧ calls_of
      (GetCachedTicket renewing "alice" "HTTP/server"
         (client_of (GetCachedTicket renewing "alice" "HTTP/server"
                       (client_moving 22 2)))) = [].
Proof.
  eapply (renewed_ticket_served_from_cache renewing (client_moving 22 2) _
            "alice" "HTTP/server" stale fresh).
  - vm_compute. reflexivity.
  - intros i Hi. destruct i as [ | [ | [ | i ] ] ];
      [ vm_compute; split; reflexivity .. | lia ].
  - vm_compute. reflexivity.
  - vm_compute. reflexivity.
  - vm_compute. reflexivity.
  - vm_compute. reflexivity.
Defined.

Lemma snapshot_lists_every_entry_once_witness :
  snapshot (alice_then_bob "old" "k-old") [bob_key; alice_key]
  ≡ₚ (map_to_list (Entries (alice_then_bob "old" "k-old"))).*2.
Proof.
  apply snapshot_lists_every_entry_once.
  unfold range_order. apply (bool_decide_unpack _). vm_compute. exact I.
Defined.

Lemma before_year_zero_range_order :
  range_order before_year_zero [alice_key].
Proof.
  unfold range_order. apply (bool_decide_unpack _). vm_compute. exact I.
Qed.

Lemma JSON_error_iff_witness :
  snd (JSON quote marshal_PrincipalName Time_MarshalJSON before_year_zero
         [alice_key]) ≠ None
  ∧ fst (JSON quote marshal_PrincipalName Time_MarshalJSON before_year_zero
           [alice_key]) = EmptyString.
Proof.
  destruct (JSON_error_iff quote marshal_PrincipalName Time_MarshalJSON
              before_year_zero [alice_key] before_year_zero_range_order)
    as [ _ Hempty ].
  assert (Herr : snd (JSON quote marshal_PrincipalName Time_MarshalJSON
                        before_year_zero [alice_key]) ≠ None)
    by (vm_compute; discriminate).
  split; [ exact Herr | exact (Hempty Herr) ].
Defined.

Lemma JSON_of_empty_cache_witness :
  JSON quote marshal_PrincipalName Time_MarshalJSON
    (clear (one_entry "old" "k-old") [alice_key]) []
  = ("null", None).
Proof.
  apply (JSON_of_empty_cache quote marshal_PrincipalName Time_MarshalJSON).
  - vm_compute. reflexivity.
  - unfold range_order. apply (bool_decide_unpack _). vm_compute. exact I.
Defined.

Lemma stored_ticket_is_served_witness :
  result_of (GetCachedTicket refusing "alice" "HTTP/server"
               (client_moving 12 3))
  = (http_ticket "old", "k-old", true)
  ∧ calls_of (GetCachedTicket refusing "alice" "HTTP/server"
                (client_moving 12 3))
    = [].
Proof.
  apply (stored_ticket_is_served refusing (client_moving 12 3) NewCache
           alice (http_ticket "old") 5 10 20 30 "k-old").
  - reflexivity.
  - vm_compute. reflexivity.
  - vm_compute. reflexivity.
Defined.

Lemma removed_ticket_is_not_served_witness :
  GetCachedTicket renewing "alice" "HTTP/server" (emptied 15)
  = ((zero_Ticket, zero_EncryptionKey, false), emptied 15, []).
Proof.
  apply (removed_ticket_is_not_served renewing (emptied 15)
           (one_entry "old" "k-old")).
  reflexivity.
Defined.

Lemma renewTicket_failure_cases_witness :
  (snd (fst (exchange_at refusing (client_at 25) (renewal_call stale)))
   = Some (otherError "krberror.Krberror" "KDC unreachable")
   ∧ stale = stale)
  ∨ (snd (fst (exchange_at refusing (client_at 25) (renewal_call stale)))
     = None
     ∧ Entries (cache (snd (exchange_at refusing (client_at 25)
                              (renewal_call stale)))) !! own_key stale
       = None
     ∧ stale = zero_CacheEntry
     ∧ Error (otherError "krberror.Krberror" "KDC unreachable")
       = "ticket was not added to cache").
Proof.
  apply (renewTicket_failure_cases refusing (client_at 25) stale stale).
  vm_compute. reflexivity.
Defined.

End more_runs.
